(** * AICanvas: the minimap coordinate engine, history persistence and
      thumbnail sizing

    A shallow embedding of
    - [Minimap] (the React component: viewport tracking, content bounds,
      the world/minimap transform, the wheel, click and drag handlers and
      the render order),
    - [saveHistory] of the IndexedDB storage service, and
    - the dimension computation of [generateThumbnail].

    ** Number model

    A JavaScript [number] is modelled by [num]: an exact rational, or one
    of the three special values [+Infinity], [-Infinity] and [NaN].  The
    arithmetic follows IEEE 754 on the special values (division by zero,
    [Infinity - Infinity], [0 * Infinity], [Math.min] and [Math.max] with
    [NaN]).  Rounding, overflow of finite values and the sign of zero are
    outside the model: finite arithmetic is exact, and a zero divisor
    behaves as [+0].  Statements that the specification makes "up to
    floating-point rounding" are therefore stated as exact equalities of
    rationals ([==]). *)

From Stdlib Require Import QArith Qminmax ZArith List String Bool.
From Stdlib Require Import Lia Lqa Permutation.
Import ListNotations.

(* ================================================================== *)
(** * JavaScript numbers *)
(* ================================================================== *)

Module JS.

Inductive num : Type :=
| Fin (q : Q)
| PInf
| NInf
| NaN.

Declare Scope num_scope.
Delimit Scope num_scope with num.
Bind Scope num_scope with num.

(** Unary minus. *)
Definition neg (a : num) : num :=
  match a with
  | Fin p => Fin (- p)
  | PInf => NInf
  | NInf => PInf
  | NaN => NaN
  end.

(** [a + b]. *)
Definition add (a b : num) : num :=
  match a, b with
  | NaN, _ | _, NaN => NaN
  | Fin p, Fin q => Fin (p + q)
  | PInf, NInf | NInf, PInf => NaN
  | PInf, _ | _, PInf => PInf
  | NInf, _ | _, NInf => NInf
  end.

(** [a - b]. *)
Definition sub (a b : num) : num := add a (neg b).

(** An infinity with the sign of [c] times the sign of the infinity;
    [NaN] when the finite factor is zero. *)
Definition signed_inf (c : comparison) (positive : bool) : num :=
  match c with
  | Eq => NaN
  | Gt => if positive then PInf else NInf
  | Lt => if positive then NInf else PInf
  end.

(** [a * b]. *)
Definition mul (a b : num) : num :=
  match a, b with
  | NaN, _ | _, NaN => NaN
  | Fin p, Fin q => Fin (p * q)
  | Fin p, PInf | PInf, Fin p => signed_inf (p ?= 0) true
  | Fin p, NInf | NInf, Fin p => signed_inf (p ?= 0) false
  | PInf, PInf | NInf, NInf => PInf
  | PInf, NInf | NInf, PInf => NInf
  end.

(** [a / b].  A finite non-zero number divided by zero is an infinity
    of its sign, [0 / 0] is [NaN], and a finite number divided by an
    infinity is zero. *)
Definition div (a b : num) : num :=
  match a, b with
  | NaN, _ | _, NaN => NaN
  | Fin p, Fin q =>
      match q ?= 0 with
      | Eq => signed_inf (p ?= 0) true
      | _ => Fin (p / q)
      end
  | Fin _, (PInf | NInf) => Fin 0
  | PInf, Fin q => match q ?= 0 with Lt => NInf | _ => PInf end
  | NInf, Fin q => match q ?= 0 with Lt => PInf | _ => NInf end
  | (PInf | NInf), (PInf | NInf) => NaN
  end.

(** [Math.min(a, b)]. *)
Definition min (a b : num) : num :=
  match a, b with
  | NaN, _ | _, NaN => NaN
  | NInf, _ | _, NInf => NInf
  | PInf, c | c, PInf => c
  | Fin p, Fin q => Fin (Qmin p q)
  end.

(** [Math.max(a, b)]. *)
Definition max (a b : num) : num :=
  match a, b with
  | NaN, _ | _, NaN => NaN
  | PInf, _ | _, PInf => PInf
  | NInf, c | c, NInf => c
  | Fin p, Fin q => Fin (Qmax p q)
  end.

(** [a > b]: false as soon as an operand is [NaN]. *)
Definition gt (a b : num) : bool :=
  match a, b with
  | NaN, _ | _, NaN => false
  | Fin p, Fin q => match p ?= q with Gt => true | _ => false end
  | PInf, (Fin _ | NInf) => true
  | Fin _, NInf => true
  | _, _ => false
  end.

(** [a <= b]: false as soon as an operand is [NaN]. *)
Definition leb (a b : num) : bool :=
  match a, b with
  | NaN, _ | _, NaN => false
  | Fin p, Fin q => Qle_bool p q
  | NInf, _ | _, PInf => true
  | _, _ => false
  end.

Definition is_finite (a : num) : bool :=
  match a with Fin _ => true | _ => false end.

(** Equality of modelled numbers: rationals are compared by value. *)
Definition eqn (a b : num) : Prop :=
  match a, b with
  | Fin p, Fin q => p == q
  | PInf, PInf | NInf, NInf | NaN, NaN => True
  | _, _ => False
  end.

End JS.

Import JS.
Coercion Fin : Q >-> num.

Notation "a + b" := (add a b) : num_scope.
Notation "a - b" := (sub a b) : num_scope.
Notation "a * b" := (mul a b) : num_scope.
Notation "a / b" := (div a b) : num_scope.
Notation "- a" := (neg a) : num_scope.
Infix "=~" := eqn (at level 70, no associativity) : num_scope.

Local Open Scope num_scope.

(* ================================================================== *)
(** * Arrays *)
(* ================================================================== *)

Module JSArray.

Section Sort.
Context {A : Type}.
Variable comparefn : A -> A -> Z.

(** [Array.prototype.sort(comparefn)].  The language requires the sort
    to be stable and, for a consistent comparator, to return the sorted
    rearrangement, which is then unique.  It is modelled by the stable
    insertion sort: an element is placed before the first later element
    that the comparator does not put in front of it. *)
Fixpoint insert (a : A) (l : list A) : list A :=
  match l with
  | [] => [a]
  | b :: l' => if (comparefn a b <=? 0)%Z then a :: b :: l'
               else b :: insert a l'
  end.

Fixpoint sort (l : list A) : list A :=
  match l with
  | [] => []
  | a :: l' => insert a (sort l')
  end.
End Sort.

(** [arr.slice(start)], with the relative index of the language: a
    negative [start] counts from the end and is clamped at 0, a positive
    one is clamped at the length. *)
Definition slice {A : Type} (start : Z) (arr : list A) : list A :=
  let len := Z.of_nat (List.length arr) in
  let k := if (start <? 0)%Z then Z.max (len + start) 0
           else Z.min start len in
  skipn (Z.to_nat k) arr.

End JSArray.

(* ================================================================== *)
(** * The data of the minimap *)
(* ================================================================== *)

(** [{ x, y }] *)
Module Point.
Record t : Type := mk { x : num; y : num }.
End Point.

(** [interface Rect] *)
Module Rect.
Record t : Type := mk { x : num; y : num; width : num; height : num }.
End Rect.

(** The result of [worldToMinimap]: [{ x, y, scale }]. *)
Module ScaledPoint.
Record t : Type := mk { x : num; y : num; scale : num }.
End ScaledPoint.

(** The fields of [LayerData] that the minimap reads.  The declaration
    of [LayerData] is in [../types]; [type] is one of its string
    literals and is kept as a string. *)
Module LayerData.
Record t : Type := mk {
  id : string;
  type : string;
  x : num;
  y : num;
  width : num;
  height : num;
  isLoading : bool
}.
End LayerData.

Module Minimap.

(** [window.innerWidth], [window.innerHeight] *)
Record Window : Type := { innerWidth : num; innerHeight : num }.

(** [React.MouseEvent] and the [DOMRect] of the container, as far as the
    handlers read them. *)
Record MouseEvent : Type := { clientX : num; clientY : num }.
Record DOMRect : Type := { left : num; top : num }.
Record WheelEvent : Type := { deltaY : num }.

(** The state of the component: two [useState] cells and one ref. *)
Record State : Type := {
  minimapZoom : num;
  isDraggingViewport : bool;
  dragOffsetRef : Point.t
}.

Definition MINIMAP_WIDTH : num := Fin 200.
Definition MINIMAP_HEIGHT : num := Fin 150.

Definition initialState : State :=
  {| minimapZoom := Fin 1;
     isDraggingViewport := false;
     dragOffsetRef := Point.mk (Fin 0) (Fin 0) |}.

Section Component.
Variable window : Window.

(** Viewport bounds in world coordinates. *)
Definition getViewportInWorld (canvasOffset : Point.t) (scale : num)
  : Rect.t :=
  let x := - Point.x canvasOffset / scale in
  let y := - Point.y canvasOffset / scale in
  let width := innerWidth window / scale in
  let height := innerHeight window / scale in
  Rect.mk x y width height.

(** The four accumulators of the [forEach] loop of [contentBounds]. *)
Record Extent : Type := {
  minX : num; minY : num; maxX : num; maxY : num
}.

Definition includeLayer (e : Extent) (layer : LayerData.t) : Extent :=
  {| minX := JS.min (minX e) (LayerData.x layer);
     minY := JS.min (minY e) (LayerData.y layer);
     maxX := JS.max (maxX e) (LayerData.x layer + LayerData.width layer);
     maxY := JS.max (maxY e) (LayerData.y layer + LayerData.height layer)
  |}.

Definition includeViewport (e : Extent) (viewport : Rect.t) : Extent :=
  {| minX := JS.min (minX e) (Rect.x viewport);
     minY := JS.min (minY e) (Rect.y viewport);
     maxX := JS.max (maxX e) (Rect.x viewport + Rect.width viewport);
     maxY := JS.max (maxY e) (Rect.y viewport + Rect.height viewport)
  |}.

(** Content bounds (all layers + viewport) with padding; [viewport] is
    the value of [getViewportInWorld()]. *)
Definition contentBounds (layers : list LayerData.t) (viewport : Rect.t)
  : Rect.t :=
  match layers with
  | [] =>
      let padding :=
        JS.max (Rect.width viewport) (Rect.height viewport) * Fin (1#10) in
      Rect.mk (Rect.x viewport - padding)
              (Rect.y viewport - padding)
              (Rect.width viewport + padding * Fin 2)
              (Rect.height viewport + padding * Fin 2)
  | _ :: _ =>
      let e0 := {| minX := PInf; minY := PInf;
                   maxX := NInf; maxY := NInf |} in
      let e1 := fold_left includeLayer layers e0 in
      let e := includeViewport e1 viewport in
      let contentWidth := maxX e - minX e in
      let contentHeight := maxY e - minY e in
      let padding := JS.max contentWidth contentHeight * Fin (1#10) in
      Rect.mk (minX e - padding)
              (minY e - padding)
              (contentWidth + padding * Fin 2)
              (contentHeight + padding * Fin 2)
  end.

(** The local constant [fitScale], computed in the same way by
    [worldToMinimap] and [minimapToWorld]. *)
Definition fitScale (contentBounds : Rect.t) (minimapZoom : num) : num :=
  JS.min (MINIMAP_WIDTH / Rect.width contentBounds)
         (MINIMAP_HEIGHT / Rect.height contentBounds) * minimapZoom.

(** Transform from world to minimap coordinates. *)
Definition worldToMinimap (contentBounds : Rect.t) (minimapZoom : num)
    (worldX worldY : num) : ScaledPoint.t :=
  let fitScale := fitScale contentBounds minimapZoom in
  let scaledWidth := Rect.width contentBounds * fitScale in
  let scaledHeight := Rect.height contentBounds * fitScale in
  let offsetX := (MINIMAP_WIDTH - scaledWidth) / Fin 2 in
  let offsetY := (MINIMAP_HEIGHT - scaledHeight) / Fin 2 in
  ScaledPoint.mk ((worldX - Rect.x contentBounds) * fitScale + offsetX)
         ((worldY - Rect.y contentBounds) * fitScale + offsetY)
         fitScale.

(** Transform from minimap to world coordinates. *)
Definition minimapToWorld (contentBounds : Rect.t) (minimapZoom : num)
    (minimapX minimapY : num) : Point.t :=
  let fitScale := fitScale contentBounds minimapZoom in
  let scaledWidth := Rect.width contentBounds * fitScale in
  let scaledHeight := Rect.height contentBounds * fitScale in
  let offsetX := (MINIMAP_WIDTH - scaledWidth) / Fin 2 in
  let offsetY := (MINIMAP_HEIGHT - scaledHeight) / Fin 2 in
  Point.mk ((minimapX - offsetX) / fitScale + Rect.x contentBounds)
           ((minimapY - offsetY) / fitScale + Rect.y contentBounds).

(** Viewport rectangle in minimap coordinates. *)
Definition viewportRect (viewport : Rect.t) (contentBounds : Rect.t)
    (minimapZoom : num) : Rect.t :=
  let topLeft :=
    worldToMinimap contentBounds minimapZoom
                   (Rect.x viewport) (Rect.y viewport) in
  Rect.mk (ScaledPoint.x topLeft) (ScaledPoint.y topLeft)
          (Rect.width viewport * ScaledPoint.scale topLeft)
          (Rect.height viewport * ScaledPoint.scale topLeft).

(** The offset that puts a world position at the centre of the
    physical viewport (written out in both handlers). *)
Definition centerOn (worldPos : Point.t) (scale : num) : Point.t :=
  Point.mk (innerWidth window / Fin 2 - Point.x worldPos * scale)
           (innerHeight window / Fin 2 - Point.y worldPos * scale).

(** Click to jump to location.  The result lists the calls of
    [onViewportChange]. *)
Definition handleMinimapClick (st : State) (rect : option DOMRect)
    (contentBounds : Rect.t) (scale : num) (e : MouseEvent)
  : list Point.t :=
  if isDraggingViewport st then []
  else match rect with
       | None => []
       | Some rect =>
           let minimapX := clientX e - left rect in
           let minimapY := clientY e - top rect in
           let worldPos :=
             minimapToWorld contentBounds (minimapZoom st)
                            minimapX minimapY in
           let newOffset := centerOn worldPos scale in
           [newOffset]
       end.

(** Start dragging the viewport rectangle. *)
Definition handleViewportMouseDown (st : State) (rect : option DOMRect)
    (viewportRect : Rect.t) (e : MouseEvent) : State :=
  let st := {| minimapZoom := minimapZoom st;
               isDraggingViewport := true;
               dragOffsetRef := dragOffsetRef st |} in
  match rect with
  | None => st
  | Some rect =>
      let viewportCenterX :=
        Rect.x viewportRect + Rect.width viewportRect / Fin 2 in
      let viewportCenterY :=
        Rect.y viewportRect + Rect.height viewportRect / Fin 2 in
      {| minimapZoom := minimapZoom st;
         isDraggingViewport := isDraggingViewport st;
         dragOffsetRef :=
           Point.mk ((clientX e - left rect) - viewportCenterX)
                    ((clientY e - top rect) - viewportCenterY) |}
  end.

(** Drag the viewport rectangle. *)
Definition handleMouseMove (st : State) (rect : option DOMRect)
    (contentBounds : Rect.t) (scale : num) (e : MouseEvent)
  : list Point.t :=
  if negb (isDraggingViewport st) then []
  else match rect with
       | None => []
       | Some rect =>
           let minimapX :=
             clientX e - left rect - Point.x (dragOffsetRef st) in
           let minimapY :=
             clientY e - top rect - Point.y (dragOffsetRef st) in
           let worldCenter :=
             minimapToWorld contentBounds (minimapZoom st)
                            minimapX minimapY in
           let newOffset := centerOn worldCenter scale in
           [newOffset]
       end.

(** Stop dragging. *)
Definition handleMouseUp (st : State) : State :=
  {| minimapZoom := minimapZoom st;
     isDraggingViewport := false;
     dragOffsetRef := dragOffsetRef st |}.

(** Minimap zoom via mouse wheel. *)
Definition handleWheel (st : State) (e : WheelEvent) : State :=
  let zoomDelta := - deltaY e * Fin (2#1000) in
  {| minimapZoom :=
       JS.min (JS.max (minimapZoom st + zoomDelta) (Fin (1#2))) (Fin 3);
     isDraggingViewport := isDraggingViewport st;
     dragOffsetRef := dragOffsetRef st |}.

(** The comparator of [sortedLayers]. *)
Definition isGroup (l : LayerData.t) : bool :=
  String.eqb (LayerData.type l) "group".

Definition isSelected (selectedLayerId : option string)
    (l : LayerData.t) : bool :=
  match selectedLayerId with
  | Some sel => String.eqb (LayerData.id l) sel
  | None => false
  end.

Definition compareLayers (selectedLayerId : option string)
    (a b : LayerData.t) : Z :=
  if isGroup a && negb (isGroup b) then (-1)%Z
  else if isGroup b && negb (isGroup a) then 1%Z
  else if isSelected selectedLayerId a then 1%Z
  else if isSelected selectedLayerId b then (-1)%Z
  else 0%Z.

(** Layers in render order: groups first, selected last. *)
Definition sortedLayers (layers : list LayerData.t)
    (selectedLayerId : option string) : list LayerData.t :=
  JSArray.sort (compareLayers selectedLayerId) layers.

End Component.

End Minimap.

(* ================================================================== *)
(** * The storage service: [saveHistory] *)
(* ================================================================== *)

Module Storage.

Definition MAX_HISTORY_STATES : Z := 20.

(** What the object store [canvasState] holds under a key. *)
Inductive Stored : Type :=
| ViewStateValue (offset : Point.t) (scale : num)
| HistoryValue (history : list (list LayerData.t)) (index : Z).

(** An object store: keys are the string literals of the service. *)
Definition ObjectStore : Type := string -> option Stored.

Definition put (value : Stored) (key : string) (store : ObjectStore)
  : ObjectStore :=
  fun k => if String.eqb k key then Some value else store k.

(** What the environment decides: whether [initDB()] resolves, and
    whether the transaction completes. *)
Record Env : Type := { dbOpens : bool; txCompletes : bool }.

Inductive Outcome : Type := Resolved | Rejected.

(** The trimming of [saveHistory]: the two local constants
    [trimmedHistory] and [adjustedIndex].  [historyIndex] is an index
    into [history], an integer. *)
Definition trimmedHistory (history : list (list LayerData.t))
  : list (list LayerData.t) :=
  JSArray.slice (- MAX_HISTORY_STATES) history.

Definition adjustedIndex (history : list (list LayerData.t))
    (historyIndex : Z) : Z :=
  Z.max 0 (historyIndex
           - (Z.of_nat (List.length history)
              - Z.of_nat (List.length (trimmedHistory history)))).

(** [saveHistory]: the state of the object store afterwards and the
    outcome of the returned promise.  A failure of [initDB] is caught
    and logged; a failed transaction writes nothing and rejects. *)
Definition saveHistory (env : Env) (store : ObjectStore)
    (history : list (list LayerData.t)) (historyIndex : Z)
  : ObjectStore * Outcome :=
  if dbOpens env then
    let trimmedHistory := trimmedHistory history in
    let adjustedIndex := adjustedIndex history historyIndex in
    if txCompletes env then
      (put (HistoryValue trimmedHistory adjustedIndex) "history" store,
       Resolved)
    else (store, Rejected)
  else (store, Resolved).

End Storage.

(* ================================================================== *)
(** * The thumbnail service: dimensions *)
(* ================================================================== *)

Module Thumbnail.

Definition THUMBNAIL_SIZE : num := Fin 256.

(** The local variables [width] and [height] of the [onload] handler of
    [generateThumbnail], from [img.naturalWidth] and
    [img.naturalHeight]. *)
Definition dimensions (naturalWidth naturalHeight : num) : num * num :=
  let width := THUMBNAIL_SIZE in
  let height := THUMBNAIL_SIZE in
  if JS.gt naturalWidth naturalHeight then
    let height := (naturalHeight / naturalWidth) * THUMBNAIL_SIZE in
    (width, height)
  else
    let width := (naturalWidth / naturalHeight) * THUMBNAIL_SIZE in
    (width, height).

End Thumbnail.

(* ================================================================== *)
(** * The thumbnail service: [generateThumbnail] *)
(* ================================================================== *)

Module ThumbnailService.

(** What the browser decides: whether the image loads, and then its
    natural width and height; whether the canvas gives a 2d context;
    and the data URL of the canvas, for the image and the size it is
    drawn at. *)
Record Browser : Type := {
  loadImage : string -> option (num * num);
  hasContext2d : bool;
  toDataURL : string -> num -> num -> string
}.

(** How the promise settles. *)
Inductive Settled : Type :=
| Fulfilled (dataUrl : string)
| RejectedWith (message : string).

Definition generateThumbnail (browser : Browser) (base64Src : string)
  : Settled :=
  match loadImage browser base64Src with
  | None => RejectedWith "Failed to load image for thumbnail"
  | Some (naturalWidth, naturalHeight) =>
      let '(width, height) :=
        Thumbnail.dimensions naturalWidth naturalHeight in
      if hasContext2d browser then
        Fulfilled (toDataURL browser base64Src width height)
      else RejectedWith "Could not get canvas context"
  end.

End ThumbnailService.

(* ================================================================== *)
(** * The storage service: layers, view state, history *)
(* ================================================================== *)

Module StorageService.

(** A stored layer: [LayerData] with the two further fields that
    [loadLayers] reads; both are optional strings. *)
Record StoredLayer : Type := {
  layer : LayerData.t;
  src : option string;
  thumbnail : option string
}.

(** The object store [layers]. *)
Definition LayersStore : Type := string -> option (list StoredLayer).

Definition putLayers (value : list StoredLayer) (key : string)
    (store : LayersStore) : LayersStore :=
  fun k => if String.eqb k key then Some value else store k.

(** [store.clear()] *)
Definition clearLayers (store : LayersStore) : LayersStore :=
  fun _ => None.

Definition clearState (store : Storage.ObjectStore) : Storage.ObjectStore :=
  fun _ => None.

(** How the promise of a loader settles: with a value or [null], or
    rejected. *)
Inductive Loaded (A : Type) : Type :=
| Returned (value : option A)
| LoadRejected.
Arguments Returned {A} value.
Arguments LoadRejected {A}.

(** The truth value of an optional string. *)
Definition truthy (s : option string) : bool :=
  match s with
  | Some s => negb (String.eqb s EmptyString)
  | None => false
  end.

Definition saveLayers (env : Storage.Env) (store : LayersStore)
    (layers : list StoredLayer) : LayersStore * Storage.Outcome :=
  if Storage.dbOpens env then
    if Storage.txCompletes env then
      (putLayers layers "current" store, Storage.Resolved)
    else (store, Storage.Rejected)
  else (store, Storage.Resolved).

Section LoadLayers.
Variable browser : ThumbnailService.Browser.

(** The callback of [layers.map] in [loadLayers]: the layer, with a
    thumbnail when one is missing and can be generated, and whether
    [needsSave] is set. *)
Definition migrateLayer (l : StoredLayer) : StoredLayer * bool :=
  if String.eqb (LayerData.type (layer l)) "image"
     && truthy (src l) && negb (truthy (thumbnail l))
  then
    match src l with
    | Some s =>
        match ThumbnailService.generateThumbnail browser s with
        | ThumbnailService.Fulfilled t =>
            ({| layer := layer l; src := src l; thumbnail := Some t |},
             true)
        | ThumbnailService.RejectedWith _ => (l, false)
        end
    | None => (l, false)
    end
  else (l, false).

(** [loadLayers].  [env] decides the opening of the database and the
    read request; [writeCompletes] decides the transaction of the nested
    [saveLayers], whose [initDB()] returns the instance already open.
    A rejection of that nested call is caught as any other error. *)
Definition loadLayers (env : Storage.Env) (writeCompletes : bool)
    (store : LayersStore) : LayersStore * Loaded (list StoredLayer) :=
  if Storage.dbOpens env then
    if Storage.txCompletes env then
      match store "current"%string with
      | None => (store, Returned None)
      | Some layers =>
          let migrated := map migrateLayer layers in
          let needsSave := existsb snd migrated in
          let migratedLayers := map fst migrated in
          if needsSave then
            match saveLayers {| Storage.dbOpens := true;
                                Storage.txCompletes := writeCompletes |}
                             store migratedLayers with
            | (store', Storage.Resolved) =>
                (store', Returned (Some migratedLayers))
            | (store', Storage.Rejected) => (store', Returned None)
            end
          else (store, Returned (Some migratedLayers))
      end
    else (store, Returned None)
  else (store, Returned None).

End LoadLayers.

Definition saveViewState (env : Storage.Env) (store : Storage.ObjectStore)
    (offset : Point.t) (scale : num)
  : Storage.ObjectStore * Storage.Outcome :=
  if Storage.dbOpens env then
    if Storage.txCompletes env then
      (Storage.put (Storage.ViewStateValue offset scale) "viewState" store,
       Storage.Resolved)
    else (store, Storage.Rejected)
  else (store, Storage.Resolved).

(** [loadViewState] and [loadHistory] return the promise of the request
    without awaiting it: a failed request rejects, a database that does
    not open gives [null]. *)
Definition loadViewState (env : Storage.Env) (store : Storage.ObjectStore)
  : Loaded Storage.Stored :=
  if Storage.dbOpens env then
    if Storage.txCompletes env then Returned (store "viewState"%string)
    else LoadRejected
  else Returned None.

Definition loadHistory (env : Storage.Env) (store : Storage.ObjectStore)
  : Loaded Storage.Stored :=
  if Storage.dbOpens env then
    if Storage.txCompletes env then Returned (store "history"%string)
    else LoadRejected
  else Returned None.

Definition clearAllData (env : Storage.Env)
    (stores : LayersStore * Storage.ObjectStore)
  : (LayersStore * Storage.ObjectStore) * Storage.Outcome :=
  if Storage.dbOpens env then
    if Storage.txCompletes env then
      ((clearLayers (fst stores), clearState (snd stores)),
       Storage.Resolved)
    else (stores, Storage.Rejected)
  else (stores, Storage.Resolved).

End StorageService.

(* ================================================================== *)
(** * The minimap: what is drawn, and the wiring of the events *)
(* ================================================================== *)

(** The attributes of the [<rect>] of a layer. *)
Module RectProps.
Record t : Type := mk {
  key : string;
  x : num;
  y : num;
  width : num;
  height : num;
  fill : string;
  stroke : string;
  strokeWidth : num;
  opacity : num;
  className : string
}.
End RectProps.

Module MinimapView.

(** [interface MinimapProps], without the callback. *)
Record Props : Type := {
  layers : list LayerData.t;
  selectedLayerId : option string;
  canvasOffset : Point.t;
  scale : num
}.

(** The page: the window and the container of the minimap, when it is
    mounted. *)
Record Host : Type := {
  window : Minimap.Window;
  containerRect : option Minimap.DOMRect
}.

(** The events that the component listens to. *)
Inductive Event : Type :=
| Click (e : Minimap.MouseEvent)
| ViewportMouseDown (e : Minimap.MouseEvent)
| MouseMove (e : Minimap.MouseEvent)
| MouseUp
| MouseLeave
| GlobalMouseUp
| Wheel (e : Minimap.WheelEvent).

Section View.
Variable host : Host.
Variable props : Props.

Definition viewport : Rect.t :=
  Minimap.getViewportInWorld (window host) (canvasOffset props) (scale props).

Definition bounds : Rect.t := Minimap.contentBounds (layers props) viewport.

Definition marker (st : Minimap.State) : Rect.t :=
  Minimap.viewportRect viewport bounds (Minimap.minimapZoom st).

(** The handler of an event: the next state and the calls of
    [onViewportChange]. *)
Definition dispatch (st : Minimap.State) (ev : Event)
  : Minimap.State * list Point.t :=
  match ev with
  | Click e =>
      (st, Minimap.handleMinimapClick (window host) st (containerRect host)
                                      bounds (scale props) e)
  | ViewportMouseDown e =>
      (Minimap.handleViewportMouseDown st (containerRect host) (marker st) e,
       [])
  | MouseMove e =>
      (st, Minimap.handleMouseMove (window host) st (containerRect host)
                                   bounds (scale props) e)
  | MouseUp | MouseLeave | GlobalMouseUp => (Minimap.handleMouseUp st, [])
  | Wheel e => (Minimap.handleWheel st e, [])
  end.

(** The table [MINIMAP_LAYER_COLORS] of [../constants]. *)
Variable MINIMAP_LAYER_COLORS : string -> option string.

(** The body of [sortedLayers.map]: the rectangle drawn for a layer. *)
Definition renderLayer (st : Minimap.State) (layer : LayerData.t)
  : RectProps.t :=
  let pos := Minimap.worldToMinimap bounds (Minimap.minimapZoom st)
                                    (LayerData.x layer) (LayerData.y layer) in
  let width := LayerData.width layer * ScaledPoint.scale pos in
  let height := LayerData.height layer * ScaledPoint.scale pos in
  let fillColor :=
    match MINIMAP_LAYER_COLORS (LayerData.type layer) with
    | Some c => if String.eqb c EmptyString then "#3f3f46"%string else c
    | None => "#3f3f46"%string
    end in
  let isSelected := Minimap.isSelected (selectedLayerId props) layer in
  let isLoading := LayerData.isLoading layer in
  RectProps.mk (LayerData.id layer)
               (ScaledPoint.x pos) (ScaledPoint.y pos)
               (JS.max width (Fin 2)) (JS.max height (Fin 2))
               fillColor
               (if isSelected then "#ffffff" else "transparent")%string
               (if isSelected then Fin (3 # 2) else Fin 0)
               (if Minimap.isGroup layer then Fin (1 # 2) else Fin (8 # 10))
               (if isLoading then "animate-pulse"%string else EmptyString).

Definition renderLayers (st : Minimap.State) : list RectProps.t :=
  map (renderLayer st)
      (Minimap.sortedLayers (layers props) (selectedLayerId props)).

End View.

(** A sequence of events, each with the page and the properties of the
    render it arrives in. *)
Fixpoint run (trace : list (Host * Props * Event)) (st : Minimap.State)
  : Minimap.State * list Point.t :=
  match trace with
  | [] => (st, [])
  | (host, props, ev) :: trace' =>
      let '(st1, out1) := dispatch host props st ev in
      let '(st2, out2) := run trace' st1 in
      (st2, out1 ++ out2)
  end.

End MinimapView.

(* ================================================================== *)
(** * Vocabulary of the statements *)
(* ================================================================== *)

Import Minimap.
Import Storage.
Import Thumbnail.

(** A rectangle with finite coordinates. *)
Definition rectQ (x y w h : Q) : Rect.t :=
  Rect.mk (Fin x) (Fin y) (Fin w) (Fin h).

(** The scale that fits a [w] by [h] region in the minimap, times the
    zoom, over the rationals. *)
Definition fitScaleQ (w h zoom : Q) : Q :=
  Qmin (200 / w) (150 / h) * zoom.

Definition finiteScaledPoint (p : ScaledPoint.t) : bool :=
  is_finite (ScaledPoint.x p) && is_finite (ScaledPoint.y p)
  && is_finite (ScaledPoint.scale p).

Definition finitePoint (p : Point.t) : bool :=
  is_finite (Point.x p) && is_finite (Point.y p).

Definition finiteLayer (l : LayerData.t) : bool :=
  is_finite (LayerData.x l) && is_finite (LayerData.y l)
  && is_finite (LayerData.width l) && is_finite (LayerData.height l).

Definition finiteRect (r : Rect.t) : bool :=
  is_finite (Rect.x r) && is_finite (Rect.y r)
  && is_finite (Rect.width r) && is_finite (Rect.height r).

(** The centre of a rectangle. *)
Definition rectCenter (r : Rect.t) : Point.t :=
  Point.mk (Rect.x r + Rect.width r / Fin 2)
           (Rect.y r + Rect.height r / Fin 2).

(** The rectangle [[x, x+width] x [y, y+height]] of a layer. *)
Definition layerRect (l : LayerData.t) : Rect.t :=
  Rect.mk (LayerData.x l) (LayerData.y l)
          (LayerData.width l) (LayerData.height l).

(** [p] lies in the closed rectangle [r]. *)
Definition contains (r : Rect.t) (p : Point.t) : bool :=
  leb (Rect.x r) (Point.x p)
  && leb (Point.x p) (Rect.x r + Rect.width r)
  && leb (Rect.y r) (Point.y p)
  && leb (Point.y p) (Rect.y r + Rect.height r).

(** The values that the accumulators of the loop of [contentBounds] can
    take: the minima start at [+Infinity], the maxima at [-Infinity]. *)
Definition lowOk (a : num) : Prop := a = PInf \/ exists q, a = Fin q.
Definition highOk (a : num) : Prop := a = NInf \/ exists q, a = Fin q.

(** Events with finite coordinates. *)
Definition mouseAt (cx cy : Q) : MouseEvent :=
  {| clientX := Fin cx; clientY := Fin cy |}.

Definition wheel (d : Q) : WheelEvent := {| deltaY := Fin d |}.

(** [clamp(z, 0.5, 3)], over the rationals. *)
Definition clampZoom (z : Q) : Q := Qmin (Qmax z (1 # 2)) 3.

(** The four classes of layers of the render order, each in the order of
    the input. *)
Definition plainGroups (selectedLayerId : option string)
    (ls : list LayerData.t) : list LayerData.t :=
  filter (fun l => isGroup l && negb (isSelected selectedLayerId l)) ls.

Definition selectedGroups (selectedLayerId : option string)
    (ls : list LayerData.t) : list LayerData.t :=
  filter (fun l => isGroup l && isSelected selectedLayerId l) ls.

Definition plainLayers (selectedLayerId : option string)
    (ls : list LayerData.t) : list LayerData.t :=
  filter (fun l => negb (isGroup l) && negb (isSelected selectedLayerId l)) ls.

Definition selectedLayers (selectedLayerId : option string)
    (ls : list LayerData.t) : list LayerData.t :=
  filter (fun l => negb (isGroup l) && isSelected selectedLayerId l) ls.

(** A group and an image, for the examples. *)
Definition sampleGroup : LayerData.t :=
  LayerData.mk "g" "group" (Fin 0) (Fin 0) (Fin 100) (Fin 100) false.

Definition sampleImage : LayerData.t :=
  LayerData.mk "p" "image" (Fin 10) (Fin 10) (Fin 20) (Fin 20) false.

(** The number of entries that [slice(-20)] leaves out of a history. *)
Definition trimmedCount (history : list (list LayerData.t)) : nat :=
  List.length history - 20.

(** The rational value of a finite number. *)
Definition toQ (a : num) : Q :=
  match a with
  | Fin q => q
  | _ => 0
  end.

(** [m] is the least, or the greatest, of the rationals [qs]. *)
Definition isMinOf (m : Q) (qs : list Q) : Prop :=
  (forall q, In q qs -> m <= q) /\ (exists q, In q qs /\ m == q).

Definition isMaxOf (m : Q) (qs : list Q) : Prop :=
  (forall q, In q qs -> q <= m) /\ (exists q, In q qs /\ m == q).

(** The four families of edges of the viewport and the layers. *)
Definition leftEdges (ls : list LayerData.t) (viewport : Rect.t) : list Q :=
  toQ (Rect.x viewport) :: map (fun l => toQ (LayerData.x l)) ls.

Definition topEdges (ls : list LayerData.t) (viewport : Rect.t) : list Q :=
  toQ (Rect.y viewport) :: map (fun l => toQ (LayerData.y l)) ls.

Definition rightEdges (ls : list LayerData.t) (viewport : Rect.t) : list Q :=
  toQ (Rect.x viewport + Rect.width viewport)
  :: map (fun l => toQ (LayerData.x l + LayerData.width l)) ls.

Definition bottomEdges (ls : list LayerData.t) (viewport : Rect.t) : list Q :=
  toQ (Rect.y viewport + Rect.height viewport)
  :: map (fun l => toQ (LayerData.y l + LayerData.height l)) ls.

(** Rectangles with equal coordinates. *)
Definition rectEq (r r' : Rect.t) : Prop :=
  Rect.x r =~ Rect.x r' /\ Rect.y r =~ Rect.y r'
  /\ Rect.width r =~ Rect.width r' /\ Rect.height r =~ Rect.height r'.

(** A minimap position inside the 200 by 150 display. *)
Definition inDisplay (x y : num) : bool :=
  leb (Fin 0) x && leb x MINIMAP_WIDTH && leb (Fin 0) y && leb y MINIMAP_HEIGHT.

(** Kinds of events. *)
Definition finiteWheel (ev : MinimapView.Event) : bool :=
  match ev with
  | MinimapView.Wheel e => is_finite (deltaY e)
  | _ => true
  end.

Definition isPress (ev : MinimapView.Event) : bool :=
  match ev with
  | MinimapView.ViewportMouseDown _ => true
  | _ => false
  end.

Definition isClick (ev : MinimapView.Event) : bool :=
  match ev with
  | MinimapView.Click _ => true
  | _ => false
  end.

Definition isRelease (ev : MinimapView.Event) : bool :=
  match ev with
  | MinimapView.MouseUp | MinimapView.MouseLeave
  | MinimapView.GlobalMouseUp => true
  | _ => false
  end.

Definition eventsOf
    (trace : list (MinimapView.Host * MinimapView.Props * MinimapView.Event))
  : list MinimapView.Event :=
  map snd trace.

(** A stored layer for which [loadLayers] asks for a thumbnail: an
    image with a source and without a thumbnail. *)
Definition needsThumbnail (l : StorageService.StoredLayer) : bool :=
  String.eqb (LayerData.type (StorageService.layer l)) "image"
  && StorageService.truthy (StorageService.src l)
  && negb (StorageService.truthy (StorageService.thumbnail l)).

(** The data URLs of the browser are not empty. *)
Definition nonEmptyUrls (browser : ThumbnailService.Browser) : Prop :=
  forall s w h, ThumbnailService.toDataURL browser s w h <> EmptyString.

(** How [loadLayers] may change a stored layer [a] into [b]: not at
    all, or by filling the missing thumbnail of an image from its
    source. *)
Definition migratedFrom (browser : ThumbnailService.Browser)
    (a b : StorageService.StoredLayer) : Prop :=
  StorageService.layer b = StorageService.layer a
  /\ StorageService.src b = StorageService.src a
  /\ (StorageService.thumbnail b = StorageService.thumbnail a
      \/ (needsThumbnail a = true
          /\ exists s t,
               StorageService.src a = Some s
               /\ ThumbnailService.generateThumbnail browser s
                  = ThumbnailService.Fulfilled t
               /\ StorageService.thumbnail b = Some t)).

(** Sample stored layers and a sample browser. *)
Definition sampleStoredImage : StorageService.StoredLayer :=
  {| StorageService.layer := sampleImage;
     StorageService.src := Some "data:image/png;base64,AAAA"%string;
     StorageService.thumbnail := None |}.

Definition sampleStoredGroup : StorageService.StoredLayer :=
  {| StorageService.layer := sampleGroup;
     StorageService.src := None;
     StorageService.thumbnail := None |}.

Definition sampleBrowser : ThumbnailService.Browser :=
  {| ThumbnailService.loadImage := fun _ => Some (Fin 1024, Fin 768);
     ThumbnailService.hasContext2d := true;
     ThumbnailService.toDataURL :=
       fun _ _ _ => "data:image/jpeg;base64,BBBB"%string |}.

(* ================================================================== *)
(** * The model on concrete inputs *)
(* ================================================================== *)

Example js_division_by_zero :
  Fin 200 / Fin 0 = PInf /\ Fin 0 / Fin 0 = NaN /\ Fin 0 * PInf = NaN
  /\ JS.min PInf (Fin (3 # 2)) = Fin (3 # 2)
  /\ JS.max (Fin 1) NaN = NaN.
Proof. repeat split. Qed.

Example slice_negative_start :
  JSArray.slice (-2) [1; 2; 3]%Z = [2; 3]%Z
  /\ JSArray.slice (-20) [1; 2; 3]%Z = [1; 2; 3]%Z.
Proof. split; reflexivity. Qed.

Example contentBounds_one_layer :
  let b := contentBounds [sampleImage] (rectQ 0 0 80 60) in
  Rect.x b =~ Fin (-8) /\ Rect.y b =~ Fin (-8)
  /\ Rect.width b =~ Fin 96 /\ Rect.height b =~ Fin 76.
Proof. repeat split. Qed.

Example sortedLayers_sample :
  sortedLayers [sampleImage; sampleGroup] (Some "p"%string)
  = [sampleGroup; sampleImage]
  /\ sortedLayers [sampleImage; sampleGroup] None
     = [sampleGroup; sampleImage].
Proof. split; reflexivity. Qed.

Example thumbnail_landscape :
  let '(width, height) := dimensions (Fin 1024) (Fin 768) in
  width =~ Fin 256 /\ height =~ Fin 192.
Proof. split; reflexivity. Qed.

(* ================================================================== *)
(** * Facts about the number model *)
(* ================================================================== *)

Section NumFacts.

Lemma compare_pos (q : Q) : 0 < q -> (q ?= 0) = Gt.
Proof. intros H. now apply Qgt_alt. Qed.

Lemma compare_zero (q : Q) : q == 0 -> (q ?= 0) = Eq.
Proof. intros H. now apply Qeq_alt. Qed.

Lemma add_fin (p q : Q) : Fin p + Fin q = Fin (p + q).
Proof. reflexivity. Qed.

Lemma sub_fin (p q : Q) : Fin p - Fin q = Fin (p - q).
Proof. reflexivity. Qed.

Lemma mul_fin (p q : Q) : Fin p * Fin q = Fin (p * q).
Proof. reflexivity. Qed.

Lemma neg_fin (p : Q) : - Fin p = Fin (- p).
Proof. reflexivity. Qed.

Lemma min_fin (p q : Q) : JS.min (Fin p) (Fin q) = Fin (Qmin p q).
Proof. reflexivity. Qed.

Lemma max_fin (p q : Q) : JS.max (Fin p) (Fin q) = Fin (Qmax p q).
Proof. reflexivity. Qed.

Lemma div_fin (p q : Q) : ~ q == 0 -> Fin p / Fin q = Fin (p / q).
Proof.
  intros H. unfold div.
  destruct (Qcompare_spec q 0) as [E | _ | _]; [contradiction | | ];
    reflexivity.
Qed.

Lemma div_fin_pos (p q : Q) : 0 < q -> Fin p / Fin q = Fin (p / q).
Proof. intros H. apply div_fin. lra. Qed.

Lemma div_by_zero_pos (p q : Q) : 0 < p -> q == 0 -> Fin p / Fin q = PInf.
Proof.
  intros Hp Hq. unfold div.
  now rewrite (compare_zero _ Hq), (compare_pos _ Hp).
Qed.

Lemma div_two (p : Q) : Fin p / Fin 2 = Fin (p / 2).
Proof. reflexivity. Qed.

End NumFacts.

Create Rewrite HintDb js.
#[local] Hint Rewrite add_fin sub_fin mul_fin neg_fin min_fin max_fin div_two
  : js.

(* ================================================================== *)
(** * The coordinate transform *)
(* ================================================================== *)

Section Transform.
Variables bx by_ w h zoom : Q.

Lemma fitScaleQ_pos : 0 < w -> 0 < h -> 0 < zoom -> 0 < fitScaleQ w h zoom.
Proof.
  intros Hw Hh Hz. unfold fitScaleQ.
  assert (0 < 200 / w) by (apply Qlt_shift_div_l; lra).
  assert (0 < 150 / h) by (apply Qlt_shift_div_l; lra).
  apply Qmult_lt_0_compat; [ | assumption].
  destruct (Q.min_spec (200 / w) (150 / h)) as [[_ E] | [_ E]];
    rewrite E; assumption.
Qed.

Lemma fitScale_fin :
  0 < w -> 0 < h ->
  fitScale (rectQ bx by_ w h) (Fin zoom) = Fin (fitScaleQ w h zoom).
Proof.
  intros Hw Hh. unfold fitScale, rectQ, MINIMAP_WIDTH, MINIMAP_HEIGHT.
  cbn [Rect.width Rect.height].
  rewrite !div_fin_pos by assumption. reflexivity.
Qed.

(** Both conversions on finite input, once [fitScale] is known to be
    a finite non-zero [s]. *)
Lemma worldToMinimap_fin (s px py : Q) :
  fitScale (rectQ bx by_ w h) (Fin zoom) = Fin s ->
  worldToMinimap (rectQ bx by_ w h) (Fin zoom) (Fin px) (Fin py)
  = ScaledPoint.mk (Fin ((px - bx) * s + (200 - w * s) / 2))
           (Fin ((py - by_) * s + (150 - h * s) / 2))
           (Fin s).
Proof.
  intros Hs. unfold worldToMinimap. rewrite Hs. reflexivity.
Qed.

Lemma minimapToWorld_fin (s mx my : Q) :
  ~ s == 0 ->
  fitScale (rectQ bx by_ w h) (Fin zoom) = Fin s ->
  minimapToWorld (rectQ bx by_ w h) (Fin zoom) (Fin mx) (Fin my)
  = Point.mk (Fin ((mx - (200 - w * s) / 2) / s + bx))
             (Fin ((my - (150 - h * s) / 2) / s + by_)).
Proof.
  intros Hnz Hs. unfold minimapToWorld. rewrite Hs.
  unfold rectQ, MINIMAP_WIDTH, MINIMAP_HEIGHT.
  cbn [Rect.width Rect.height Rect.x Rect.y].
  autorewrite with js. rewrite !div_fin by assumption.
  reflexivity.
Qed.

(** C1.  Round trip: for a content rectangle of strictly positive
    width and height and a minimap zoom in [0.5, 3], converting a world
    point to minimap coordinates and back returns the point.  (Finite
    arithmetic is exact in the model, so the equality is exact.) *)
Theorem round_trip (px py : Q) :
  0 < w -> 0 < h -> 1 # 2 <= zoom <= 3 ->
  let b := rectQ bx by_ w h in
  let m := worldToMinimap b (Fin zoom) (Fin px) (Fin py) in
  let p := minimapToWorld b (Fin zoom) (ScaledPoint.x m) (ScaledPoint.y m) in
  Point.x p =~ Fin px /\ Point.y p =~ Fin py.
Proof.
  intros Hw Hh [Hz _] b m p.
  assert (Hs : 0 < fitScaleQ w h zoom) by (apply fitScaleQ_pos; lra).
  assert (Hnz : ~ fitScaleQ w h zoom == 0) by lra.
  subst p m b.
  rewrite (worldToMinimap_fin _ _ _ (fitScale_fin Hw Hh)).
  cbn [ScaledPoint.x ScaledPoint.y].
  rewrite (minimapToWorld_fin _ _ _ Hnz (fitScale_fin Hw Hh)).
  cbn [Point.x Point.y eqn].
  split; field; assumption.
Qed.

End Transform.

Lemma round_trip_witness :
  (0 < 400 /\ 0 < 300 /\ 1 # 2 <= 1 <= 3)%Q /\
  let b := rectQ 0 0 400 300 in
  let m := worldToMinimap b (Fin 1) (Fin 10) (Fin 20) in
  let p := minimapToWorld b (Fin 1) (ScaledPoint.x m) (ScaledPoint.y m) in
  Point.x p =~ Fin 10 /\ Point.y p =~ Fin 20.
Proof.
  split; [lra | apply (round_trip 0 0 400 300 1 10 20); lra].
Defined.

(** ** Zero-extent bounds *)

Section ZeroExtent.
Variables bx by_ w h zoom : Q.
Hypothesis Hw : 0 <= w.
Hypothesis Hh : 0 <= h.
Hypothesis Hzoom : 0 < zoom.

(** A single zero dimension gives an infinite ratio, which [Math.min]
    discards in favour of the other one. *)
Lemma fitScale_zero_width :
  w == 0 -> 0 < h ->
  fitScale (rectQ bx by_ w h) (Fin zoom) = Fin (150 / h * zoom).
Proof.
  intros E Hpos. unfold fitScale, rectQ, MINIMAP_WIDTH, MINIMAP_HEIGHT.
  cbn [Rect.width Rect.height].
  rewrite (div_by_zero_pos 200 w) by (assumption || lra).
  rewrite div_fin_pos by assumption. reflexivity.
Qed.

Lemma fitScale_zero_height :
  0 < w -> h == 0 ->
  fitScale (rectQ bx by_ w h) (Fin zoom) = Fin (200 / w * zoom).
Proof.
  intros Hpos E. unfold fitScale, rectQ, MINIMAP_WIDTH, MINIMAP_HEIGHT.
  cbn [Rect.width Rect.height].
  rewrite (div_by_zero_pos 150 h) by (assumption || lra).
  rewrite div_fin_pos by assumption. reflexivity.
Qed.

Lemma fitScale_zero_both :
  w == 0 -> h == 0 -> fitScale (rectQ bx by_ w h) (Fin zoom) = PInf.
Proof.
  intros Ew Eh. unfold fitScale, rectQ, MINIMAP_WIDTH, MINIMAP_HEIGHT.
  cbn [Rect.width Rect.height].
  rewrite (div_by_zero_pos 200 w), (div_by_zero_pos 150 h)
    by (assumption || lra).
  cbn. now rewrite (compare_pos _ Hzoom).
Qed.

Lemma fitScale_some_extent :
  0 < w \/ 0 < h ->
  exists s, 0 < s /\ fitScale (rectQ bx by_ w h) (Fin zoom) = Fin s.
Proof.
  intros Hsome.
  destruct (Qlt_le_dec 0 w) as [Hw' | Hw'];
    destruct (Qlt_le_dec 0 h) as [Hh' | Hh'].
  - exists (fitScaleQ w h zoom). split.
    + now apply fitScaleQ_pos.
    + now apply fitScale_fin.
  - exists (200 / w * zoom)%Q. split.
    + apply Qmult_lt_0_compat; [apply Qlt_shift_div_l; lra | assumption].
    + apply fitScale_zero_height; [assumption | lra].
  - exists (150 / h * zoom)%Q. split.
    + apply Qmult_lt_0_compat; [apply Qlt_shift_div_l; lra | assumption].
    + apply fitScale_zero_width; [lra | assumption].
  - exfalso. destruct Hsome; lra.
Qed.

(** C2 (amended).  The transformer substitutes nothing for a zero
    dimension.  For a content rectangle of non-negative width and
    height and a positive zoom: when at least one of the two
    dimensions is strictly positive, [fitScale] is finite and strictly
    positive and both conversions return finite coordinates on finite
    input; when both are zero, [fitScale] is [+Infinity]. *)
Theorem zero_extent_transform :
  let b := rectQ bx by_ w h in
  (0 < w \/ 0 < h ->
   exists s, 0 < s /\ fitScale b (Fin zoom) = Fin s /\
     (forall px py : Q,
         finiteScaledPoint (worldToMinimap b (Fin zoom) (Fin px) (Fin py))
         = true) /\
     (forall mx my : Q,
         finitePoint (minimapToWorld b (Fin zoom) (Fin mx) (Fin my)) = true))
  /\ (w == 0 -> h == 0 -> fitScale b (Fin zoom) = PInf).
Proof.
  intros b. split.
  - intros Hsome. destruct (fitScale_some_extent Hsome) as (s & Hs & E).
    exists s. repeat split; try assumption.
    + intros px py. subst b.
      now rewrite (worldToMinimap_fin bx by_ w h zoom s px py E).
    + intros mx my. subst b.
      rewrite (minimapToWorld_fin bx by_ w h zoom s mx my);
        [reflexivity | lra | exact E].
  - apply fitScale_zero_both.
Qed.

End ZeroExtent.

Lemma zero_extent_transform_witness :
  exists s : Q, 0 < s /\ fitScale (rectQ 0 0 0 300) (Fin 1) = Fin s.
Proof.
  destruct (zero_extent_transform 0 0 0 300 1) as [Hsome _]; try lra.
  destruct Hsome as (s & Hs & E & _); [right; lra | ].
  exists s. split; [exact Hs | exact E].
Defined.

(** C2 (as stated) fails: with a content rectangle of zero width and
    zero height nothing is substituted; [fitScale] is [+Infinity], and
    both conversions return [NaN] coordinates. *)
Lemma zero_extent_counterexample :
  let b := rectQ 0 0 0 0 in
  fitScale b (Fin 1) = PInf
  /\ worldToMinimap b (Fin 1) (Fin 5) (Fin 5) = ScaledPoint.mk NaN NaN PInf
  /\ minimapToWorld b (Fin 1) (Fin 100) (Fin 75) = Point.mk NaN NaN.
Proof. repeat split. Qed.

(** The same happens on the rectangle that [contentBounds] returns for
    an empty canvas in a window of size zero. *)
Lemma zero_extent_reachable :
  let window := {| innerWidth := Fin 0; innerHeight := Fin 0 |} in
  let viewport :=
    getViewportInWorld window (Point.mk (Fin 0) (Fin 0)) (Fin 1) in
  Rect.width (contentBounds [] viewport) =~ Fin 0
  /\ Rect.height (contentBounds [] viewport) =~ Fin 0
  /\ fitScale (contentBounds [] viewport) (Fin 1) = PInf.
Proof. repeat split. Qed.

(* ================================================================== *)
(** * Click and drag *)
(* ================================================================== *)

Section Handlers.
Variables W H : Q.            (* window.innerWidth, window.innerHeight *)
Variables l t : Q.            (* the container's bounding rectangle *)
Variable scale : Q.           (* the scale of the main canvas *)
Hypothesis Hscale : 0 < scale.

Let window := {| innerWidth := Fin W; innerHeight := Fin H |}.
Let rect := {| left := Fin l; top := Fin t |}.

Lemma getViewportInWorld_fin (ox oy : Q) :
  getViewportInWorld window (Point.mk (Fin ox) (Fin oy)) (Fin scale)
  = rectQ (- ox / scale) (- oy / scale) (W / scale) (H / scale).
Proof.
  unfold getViewportInWorld, rectQ, window.
  cbn [Point.x Point.y innerWidth innerHeight].
  autorewrite with js. rewrite !div_fin_pos by assumption. reflexivity.
Qed.

(** The viewport that results from an offset has the world point
    [(W/2 - ox)/scale, (H/2 - oy)/scale] at its centre. *)
Lemma viewport_center (ox oy : Q) :
  rectCenter
    (getViewportInWorld window (Point.mk (Fin ox) (Fin oy)) (Fin scale))
  = Point.mk (Fin (- ox / scale + W / scale / 2))
             (Fin (- oy / scale + H / scale / 2)).
Proof. rewrite getViewportInWorld_fin. reflexivity. Qed.

(** C4.  A click while no drag is in progress, at a minimap point that
    [minimapToWorld] maps to the world point [(wx, wy)], calls
    [onViewportChange] exactly once, with the offset
    [(W/2 - wx*scale, H/2 - wy*scale)]; this offset satisfies
    [-offset.x/scale == wx - W/(2*scale)] (and likewise for y), and the
    viewport it yields has [(wx, wy)] at its centre. *)
Theorem click_jump_centers (st : State) (contentBounds : Rect.t)
    (cx cy wx wy : Q) :
  isDraggingViewport st = false ->
  (let worldPos := minimapToWorld contentBounds (minimapZoom st)
                                  (Fin cx - Fin l) (Fin cy - Fin t) in
   Point.x worldPos =~ Fin wx /\ Point.y worldPos =~ Fin wy) ->
  exists ox oy : Q,
    handleMinimapClick window st (Some rect) contentBounds (Fin scale)
                       (mouseAt cx cy)
    = [Point.mk (Fin ox) (Fin oy)]
    /\ ox == W / 2 - wx * scale
    /\ oy == H / 2 - wy * scale
    /\ - ox / scale == wx - W / (2 * scale)
    /\ - oy / scale == wy - H / (2 * scale)
    /\ (let c := rectCenter (getViewportInWorld
                               window (Point.mk (Fin ox) (Fin oy))
                               (Fin scale)) in
        Point.x c =~ Fin wx /\ Point.y c =~ Fin wy).
Proof.
  intros Hidle Hmap. cbv zeta in Hmap.
  destruct (minimapToWorld contentBounds (minimapZoom st)
                           (Fin cx - Fin l) (Fin cy - Fin t))
    as [[qx | | | ] [qy | | | ]] eqn:E;
    cbn [Point.x Point.y eqn] in Hmap; try tauto.
  destruct Hmap as [Hx Hy].
  exists (W / 2 - qx * scale)%Q, (H / 2 - qy * scale)%Q.
  split; [ | repeat split].
  - unfold handleMinimapClick. rewrite Hidle.
    cbn [mouseAt clientX clientY left top rect]. rewrite E.
    reflexivity.
  - now rewrite Hx.
  - now rewrite Hy.
  - rewrite Hx. field. lra.
  - rewrite Hy. field. lra.
  - rewrite viewport_center. cbn [Point.x eqn]. rewrite <- Hx. field. lra.
  - rewrite viewport_center. cbn [Point.y eqn]. rewrite <- Hy. field. lra.
Qed.

(** While a drag is in progress, or when the container is not
    mounted, a click emits nothing. *)
Lemma click_suppressed (st : State) (r : option DOMRect)
    (contentBounds : Rect.t) (e : MouseEvent) :
  isDraggingViewport st = true \/ r = None ->
  handleMinimapClick window st r contentBounds (Fin scale) e = [].
Proof.
  intros [Hd | ->]; unfold handleMinimapClick.
  - now rewrite Hd.
  - now destruct (isDraggingViewport st).
Qed.

(** ** Dragging the viewport marker *)

Variables bx by_ w h zoom : Q.
Hypothesis Hw : 0 < w.
Hypothesis Hh : 0 < h.
Hypothesis Hzoom : 0 < zoom.

Let b := rectQ bx by_ w h.
Let s := fitScaleQ w h zoom.

Lemma viewportRect_fin (vx vy vw vh : Q) :
  viewportRect (rectQ vx vy vw vh) b (Fin zoom)
  = rectQ ((vx - bx) * s + (200 - w * s) / 2)
          ((vy - by_) * s + (150 - h * s) / 2)
          (vw * s) (vh * s).
Proof.
  unfold viewportRect, b. cbn [rectQ Rect.x Rect.y Rect.width Rect.height].
  fold (rectQ bx by_ w h).
  rewrite (worldToMinimap_fin _ _ _ _ _ _ _ _ (fitScale_fin _ _ _ _ _ Hw Hh)).
  reflexivity.
Qed.

(** The move handler, for a drag state with a finite grab offset. *)
Lemma handleMouseMove_fin (st : State) (gx gy cx cy : Q) :
  isDraggingViewport st = true ->
  minimapZoom st = Fin zoom ->
  dragOffsetRef st = Point.mk (Fin gx) (Fin gy) ->
  handleMouseMove window st (Some rect) b (Fin scale) (mouseAt cx cy)
  = [Point.mk
       (Fin (W / 2 - ((cx - l - gx - (200 - w * s) / 2) / s + bx) * scale))
       (Fin (H / 2 - ((cy - t - gy - (150 - h * s) / 2) / s + by_) * scale))].
Proof.
  intros Hd Hz Hg. unfold handleMouseMove. rewrite Hd, Hz, Hg.
  cbn [negb mouseAt clientX clientY left top rect Point.x Point.y].
  autorewrite with js. unfold b.
  assert (Hs : 0 < s) by (now apply fitScaleQ_pos).
  rewrite (minimapToWorld_fin bx by_ w h zoom s);
    [reflexivity | lra | now apply fitScale_fin].
Qed.

(** Tracking holds wherever the marker is grabbed: after a pointer
    move by [(dx, dy)], the centre of the viewport that the emitted
    offset yields is the centre at drag start plus
    [(dx/fitScale, dy/fitScale)]. *)
Lemma drag_tracks (st0 : State) (cox coy cx0 cy0 dx dy : Q) :
  minimapZoom st0 = Fin zoom ->
  let viewport :=
    getViewportInWorld window (Point.mk (Fin cox) (Fin coy)) (Fin scale) in
  let marker := viewportRect viewport b (Fin zoom) in
  let st1 := handleViewportMouseDown st0 (Some rect) marker
                                     (mouseAt cx0 cy0) in
  exists ox oy : Q,
    handleMouseMove window st1 (Some rect) b (Fin scale)
                    (mouseAt (cx0 + dx) (cy0 + dy))
    = [Point.mk (Fin ox) (Fin oy)]
    /\ (let c1 := rectCenter (getViewportInWorld
                                window (Point.mk (Fin ox) (Fin oy))
                                (Fin scale)) in
        let c0 := rectCenter viewport in
        Point.x c1 - Point.x c0 =~ Fin dx / fitScale b (Fin zoom)
        /\ Point.y c1 - Point.y c0 =~ Fin dy / fitScale b (Fin zoom)).
Proof.
  intros Hz viewport marker st1.
  assert (Hs : 0 < s) by (now apply fitScaleQ_pos).
  subst st1 marker viewport.
  rewrite getViewportInWorld_fin, viewportRect_fin.
  eexists _, _. split.
  - apply handleMouseMove_fin; [reflexivity | exact Hz | reflexivity].
  - rewrite viewport_center.
    unfold b at 1 2. rewrite (fitScale_fin bx by_ w h zoom Hw Hh). fold s.
    rewrite !div_fin_pos by exact Hs.
    fold (rectQ (- cox / scale) (- coy / scale) (W / scale) (H / scale)).
    cbn [rectCenter rectQ Rect.x Rect.y Rect.width Rect.height
         Point.x Point.y].
    autorewrite with js. cbn [eqn].
    split; field; lra.
Qed.

(** C8.  Drag continuity: a drag that starts with the pointer on the
    centre of the viewport marker stores a zero grab offset, and a
    subsequent pointer move by [(dx, dy)], the transform being the
    same, emits one offset whose viewport centre is the centre at drag
    start plus [(dx/fitScale, dy/fitScale)]. *)
Theorem drag_continuity (st0 : State) (cox coy cx0 cy0 dx dy : Q) :
  minimapZoom st0 = Fin zoom ->
  let viewport :=
    getViewportInWorld window (Point.mk (Fin cox) (Fin coy)) (Fin scale) in
  let marker := viewportRect viewport b (Fin zoom) in
  Fin cx0 - Fin l =~ Point.x (rectCenter marker) ->
  Fin cy0 - Fin t =~ Point.y (rectCenter marker) ->
  let st1 := handleViewportMouseDown st0 (Some rect) marker
                                     (mouseAt cx0 cy0) in
  isDraggingViewport st1 = true
  /\ Point.x (dragOffsetRef st1) =~ Fin 0
  /\ Point.y (dragOffsetRef st1) =~ Fin 0
  /\ exists ox oy : Q,
      handleMouseMove window st1 (Some rect) b (Fin scale)
                      (mouseAt (cx0 + dx) (cy0 + dy))
      = [Point.mk (Fin ox) (Fin oy)]
      /\ (let c1 := rectCenter (getViewportInWorld
                                  window (Point.mk (Fin ox) (Fin oy))
                                  (Fin scale)) in
          let c0 := rectCenter viewport in
          Point.x c1 - Point.x c0 =~ Fin dx / fitScale b (Fin zoom)
          /\ Point.y c1 - Point.y c0 =~ Fin dy / fitScale b (Fin zoom)).
Proof.
  intros Hz viewport marker Hcx Hcy st1.
  split; [reflexivity | ].
  split; [ | split].
  - subst st1 marker viewport.
    rewrite getViewportInWorld_fin, viewportRect_fin in *.
    cbn in Hcx |- *. lra.
  - subst st1 marker viewport.
    rewrite getViewportInWorld_fin, viewportRect_fin in *.
    cbn in Hcy |- *. lra.
  - exact (drag_tracks st0 cox coy cx0 cy0 dx dy Hz).
Qed.

End Handlers.

Lemma click_jump_centers_witness :
  let window := {| innerWidth := Fin 800; innerHeight := Fin 600 |} in
  let rect := {| left := Fin 10; top := Fin 20 |} in
  exists ox oy : Q,
    handleMinimapClick window initialState (Some rect)
                       (rectQ 0 0 400 300) (Fin 2) (mouseAt 110 95)
    = [Point.mk (Fin ox) (Fin oy)]
    /\ ox == 0 /\ oy == 0.
Proof.
  destruct (click_jump_centers 800 600 10 20 2 ltac:(lra) initialState
              (rectQ 0 0 400 300) 110 95 200 150)
    as (ox & oy & E & Hx & Hy & _).
  - reflexivity.
  - split; reflexivity.
  - exists ox, oy. split; [exact E | ].
    rewrite Hx, Hy. split; vm_compute; reflexivity.
Defined.

Lemma drag_continuity_witness :
  let window := {| innerWidth := Fin 800; innerHeight := Fin 600 |} in
  let rect := {| left := Fin 10; top := Fin 20 |} in
  let b := rectQ 0 0 400 300 in
  let viewport :=
    getViewportInWorld window (Point.mk (Fin 0) (Fin 0)) (Fin 4) in
  let marker := viewportRect viewport b (Fin 1) in
  let st1 := handleViewportMouseDown initialState (Some rect) marker
                                     (mouseAt 60 (115 # 2)) in
  exists ox oy : Q,
    handleMouseMove window st1 (Some rect) b (Fin 4) (mouseAt 63 (123 # 2))
    = [Point.mk (Fin ox) (Fin oy)]
    /\ (let c1 := rectCenter (getViewportInWorld
                                window (Point.mk (Fin ox) (Fin oy))
                                (Fin 4)) in
        let c0 := rectCenter viewport in
        Point.x c1 - Point.x c0 =~ Fin 3 / fitScale b (Fin 1)
        /\ Point.y c1 - Point.y c0 =~ Fin 4 / fitScale b (Fin 1)).
Proof.
  destruct (drag_continuity 800 600 10 20 4 ltac:(lra) 0 0 400 300 1
              ltac:(lra) ltac:(lra) ltac:(lra)
              initialState 0 0 60 (115 # 2) 3 4)
    as (_ & _ & _ & ox & oy & E & Hc).
  - reflexivity.
  - reflexivity.
  - reflexivity.
  - exists ox, oy. split; [exact E | exact Hc].
Defined.

(* ================================================================== *)
(** * The minimap zoom *)
(* ================================================================== *)

Lemma clampZoom_range (z : Q) : 1 # 2 <= clampZoom z <= 3.
Proof.
unfold clampZoom.
destruct (Q.max_spec z (1 # 2)) as [[? E] | [? E]];
  destruct (Q.min_spec (Qmax z (1 # 2)) 3) as [[? E'] | [? E']];
  rewrite E' ; rewrite ?E; rewrite E in *; lra.
Qed.

Lemma clampZoom_mono (z z' : Q) : z <= z' -> clampZoom z <= clampZoom z'.
Proof.
intros Hle. unfold clampZoom.
apply Q.min_le_compat_r. now apply Q.max_le_compat_r.
Qed.

Lemma handleWheel_zoom (st : State) (z d : Q) :
  minimapZoom st = Fin z ->
  minimapZoom (handleWheel st (wheel d))
  = Fin (clampZoom (z + - d * (2 # 1000))).
Proof.
intros Hz. unfold handleWheel. cbn [minimapZoom wheel deltaY].
rewrite Hz. reflexivity.
Qed.

Lemma wheel_sequence_range (ds : list Q) :
  forall (st : State) (z : Q),
    minimapZoom st = Fin z -> 1 # 2 <= z <= 3 ->
    exists z', minimapZoom (fold_left handleWheel (map wheel ds) st) = Fin z'
               /\ 1 # 2 <= z' <= 3.
Proof.
induction ds as [ | d ds IH]; intros st z Hz Hr; cbn [map fold_left].
- now exists z.
- apply (IH _ _ (handleWheel_zoom st z d Hz)). apply clampZoom_range.
Qed.

(** C5.  The zoom starts at 1.  A wheel event with (finite) delta [d]
    replaces a zoom [z] by [clamp(z + (-d * 0.002), 0.5, 3)], which lies
    in [0.5, 3]; from a zoom in [0.5, 3] the new zoom is not below the
    old one when [d <= 0] and not above it when [0 <= d], and differs
    from it when the old zoom is not at the boundary it moves towards;
    of two deltas the smaller one gives the larger zoom.  After any
    sequence of wheel events the zoom is in [0.5, 3]. *)
Theorem zoom_clamped_monotone :
  minimapZoom initialState = Fin 1
  /\ (forall (st : State) (z d : Q),
        minimapZoom st = Fin z ->
        exists z',
          minimapZoom (handleWheel st (wheel d)) = Fin z'
          /\ z' == Qmin (Qmax (z + - d * (2 # 1000)) (1 # 2)) 3
          /\ 1 # 2 <= z' <= 3
          /\ (1 # 2 <= z <= 3 ->
              (d <= 0 -> z <= z') /\ (0 <= d -> z' <= z)
              /\ (d < 0 -> z < 3 -> z < z')
              /\ (0 < d -> 1 # 2 < z -> z' < z)))
  /\ (forall (st : State) (z d1 d2 z1 z2 : Q),
        minimapZoom st = Fin z -> d1 <= d2 ->
        minimapZoom (handleWheel st (wheel d1)) = Fin z1 ->
        minimapZoom (handleWheel st (wheel d2)) = Fin z2 ->
        z2 <= z1)
  /\ (forall ds : list Q,
        exists z,
          minimapZoom (fold_left handleWheel (map wheel ds) initialState)
          = Fin z
          /\ 1 # 2 <= z <= 3).
Proof.
split; [reflexivity | split; [ | split]].
- intros st z d Hz. exists (clampZoom (z + - d * (2 # 1000))).
  split; [now apply handleWheel_zoom | ].
  split; [reflexivity | ].
  split; [apply clampZoom_range | ].
  intros Hr. unfold clampZoom.
  destruct (Q.max_spec (z + - d * (2 # 1000)) (1 # 2)) as [[? E] | [? E]];
    destruct (Q.min_spec (Qmax (z + - d * (2 # 1000)) (1 # 2)) 3)
      as [[? E'] | [? E']];
    rewrite E'; rewrite ?E; rewrite E in *;
    repeat split; intros; lra.
- intros st z d1 d2 z1 z2 Hz Hd H1 H2.
  rewrite (handleWheel_zoom st z d1 Hz) in H1.
  rewrite (handleWheel_zoom st z d2 Hz) in H2.
  injection H1 as <-. injection H2 as <-.
  apply clampZoom_mono. lra.
- intros ds.
  apply (wheel_sequence_range ds initialState 1); [reflexivity | lra].
Qed.

Lemma zoom_clamped_monotone_witness :
  exists z',
    minimapZoom (handleWheel initialState (wheel (-100))) = Fin z'
    /\ 1 # 2 <= z' <= 3 /\ 1 <= z'.
Proof.
destruct zoom_clamped_monotone as (_ & Hstep & _ & _).
destruct (Hstep initialState 1 (-100) eq_refl) as (z' & E & _ & Hr & Hm).
exists z'. split; [exact E | split; [exact Hr | ]].
apply Hm; lra.
Defined.

(* ================================================================== *)
(** * Content bounds *)
(* ================================================================== *)

Section Accumulate.
Variable f : LayerData.t -> num.

Lemma finite_inv (a : num) : is_finite a = true -> exists q, a = Fin q.
Proof. destruct a; try discriminate. now exists q. Qed.

Lemma fold_min_spec (ls : list LayerData.t) (v : Q) :
  (forall l, In l ls -> is_finite (f l) = true) ->
  forall a, lowOk a ->
  exists m,
    JS.min (fold_left (fun a l => JS.min a (f l)) ls a) (Fin v) = Fin m
    /\ m <= v
    /\ (forall q, a = Fin q -> m <= q)
    /\ (forall l q, In l ls -> f l = Fin q -> m <= q).
Proof.
induction ls as [ | l ls IH]; intros Hfin a Ha; cbn [fold_left].
- destruct Ha as [-> | [q ->]].
  + exists v. cbn. repeat split; try lra; try discriminate.
    intros ? ? [].
  + exists (Qmin q v). rewrite min_fin. repeat split.
    * apply Q.le_min_r.
    * intros q' [= <-]. apply Q.le_min_l.
    * intros ? ? [].
- destruct (finite_inv (f l) (Hfin l (or_introl eq_refl))) as [ql Hl].
  assert (Ha' : exists q', JS.min a (f l) = Fin q' /\ q' <= ql
                           /\ forall q, a = Fin q -> q' <= q).
  { rewrite Hl. destruct Ha as [-> | [q ->]].
    - exists ql. cbn. repeat split; try lra; discriminate.
    - exists (Qmin q ql). rewrite min_fin. repeat split.
      + apply Q.le_min_r.
      + intros q' [= <-]. apply Q.le_min_l. }
  destruct Ha' as (q' & E & Hq'l & Hq'a).
  destruct (IH (fun l' H' => Hfin l' (or_intror H')) (JS.min a (f l)))
    as (m & Em & Hmv & Hma & Hml).
  { right. now exists q'. }
  exists m. repeat split; try assumption.
  + intros q Hq. specialize (Hma q' E). specialize (Hq'a q Hq). lra.
  + intros l' q [<- | Hin] Hq.
    * rewrite Hl in Hq. injection Hq as <-. specialize (Hma q' E). lra.
    * now apply (Hml l').
Qed.

Lemma fold_max_spec (ls : list LayerData.t) (v : Q) :
  (forall l, In l ls -> is_finite (f l) = true) ->
  forall a, highOk a ->
  exists m,
    JS.max (fold_left (fun a l => JS.max a (f l)) ls a) (Fin v) = Fin m
    /\ v <= m
    /\ (forall q, a = Fin q -> q <= m)
    /\ (forall l q, In l ls -> f l = Fin q -> q <= m).
Proof.
induction ls as [ | l ls IH]; intros Hfin a Ha; cbn [fold_left].
- destruct Ha as [-> | [q ->]].
  + exists v. cbn. repeat split; try lra; try discriminate.
    intros ? ? [].
  + exists (Qmax q v). rewrite max_fin. repeat split.
    * apply Q.le_max_r.
    * intros q' [= <-]. apply Q.le_max_l.
    * intros ? ? [].
- destruct (finite_inv (f l) (Hfin l (or_introl eq_refl))) as [ql Hl].
  assert (Ha' : exists q', JS.max a (f l) = Fin q' /\ ql <= q'
                           /\ forall q, a = Fin q -> q <= q').
  { rewrite Hl. destruct Ha as [-> | [q ->]].
    - exists ql. cbn. repeat split; try lra; discriminate.
    - exists (Qmax q ql). rewrite max_fin. repeat split.
      + apply Q.le_max_r.
      + intros q' [= <-]. apply Q.le_max_l. }
  destruct Ha' as (q' & E & Hq'l & Hq'a).
  destruct (IH (fun l' H' => Hfin l' (or_intror H')) (JS.max a (f l)))
    as (m & Em & Hmv & Hma & Hml).
  { right. now exists q'. }
  exists m. repeat split; try assumption.
  + intros q Hq. specialize (Hma q' E). specialize (Hq'a q Hq). lra.
  + intros l' q [<- | Hin] Hq.
    * rewrite Hl in Hq. injection Hq as <-. specialize (Hma q' E). lra.
    * now apply (Hml l').
Qed.

End Accumulate.

(** The loop updates its four accumulators independently. *)
Lemma fold_includeLayer (ls : list LayerData.t) :
  forall e : Extent,
    fold_left includeLayer ls e
    = {| minX := fold_left (fun a l => JS.min a (LayerData.x l)) ls (minX e);
         minY := fold_left (fun a l => JS.min a (LayerData.y l)) ls (minY e);
         maxX := fold_left
                   (fun a l => JS.max a (LayerData.x l + LayerData.width l))
                   ls (maxX e);
         maxY := fold_left
                   (fun a l => JS.max a (LayerData.y l + LayerData.height l))
                   ls (maxY e) |}.
Proof.
induction ls as [ | l ls IH]; intros e; cbn [fold_left].
- now destruct e.
- now rewrite IH.
Qed.

Lemma finiteLayer_inv (l : LayerData.t) :
  finiteLayer l = true ->
  exists lx ly lw lh, layerRect l = rectQ lx ly lw lh.
Proof.
unfold finiteLayer, layerRect, rectQ. intros H.
apply andb_prop in H as [H Hh]. apply andb_prop in H as [H Hw].
apply andb_prop in H as [Hx Hy].
destruct (finite_inv _ Hx) as [lx ->], (finite_inv _ Hy) as [ly ->],
  (finite_inv _ Hw) as [lw ->], (finite_inv _ Hh) as [lh ->].
now exists lx, ly, lw, lh.
Qed.

Lemma finiteRect_inv (r : Rect.t) :
  finiteRect r = true -> exists x y w h, r = rectQ x y w h.
Proof.
destruct r as [x y w h]. unfold finiteRect, rectQ. cbn. intros H.
apply andb_prop in H as [H Hh]. apply andb_prop in H as [H Hw].
apply andb_prop in H as [Hx Hy].
destruct (finite_inv _ Hx) as [qx ->], (finite_inv _ Hy) as [qy ->],
  (finite_inv _ Hw) as [qw ->], (finite_inv _ Hh) as [qh ->].
now exists qx, qy, qw, qh.
Qed.

Lemma layerRect_fields (l : LayerData.t) (lx ly lw lh : Q) :
  layerRect l = rectQ lx ly lw lh ->
  LayerData.x l = Fin lx /\ LayerData.y l = Fin ly
  /\ LayerData.width l = Fin lw /\ LayerData.height l = Fin lh.
Proof. unfold layerRect, rectQ. intros [= -> -> -> ->]. now repeat split. Qed.

(** The extent after the loop and the inclusion of the viewport: finite,
    and around the viewport and around every layer. *)
Lemma extent_spec (ls : list LayerData.t) (vx vy vw vh : Q) :
  forallb finiteLayer ls = true ->
  exists mX mY MX MY : Q,
    includeViewport
      (fold_left includeLayer ls
                 {| minX := PInf; minY := PInf; maxX := NInf; maxY := NInf |})
      (rectQ vx vy vw vh)
    = {| minX := Fin mX; minY := Fin mY; maxX := Fin MX; maxY := Fin MY |}
    /\ (mX <= vx /\ mY <= vy /\ vx + vw <= MX /\ vy + vh <= MY)
    /\ (forall l lx ly lw lh,
           In l ls -> layerRect l = rectQ lx ly lw lh ->
           mX <= lx /\ mY <= ly /\ lx + lw <= MX /\ ly + lh <= MY).
Proof.
intros Hfin. rewrite forallb_forall in Hfin.
assert (Hf : forall (g : LayerData.t -> num),
           (forall l, finiteLayer l = true -> is_finite (g l) = true) ->
           forall l, In l ls -> is_finite (g l) = true)
  by (intros g Hg l Hin; apply Hg, Hfin, Hin).
assert (Hlay : forall l, finiteLayer l = true ->
                         exists lx ly lw lh,
                           LayerData.x l = Fin lx /\ LayerData.y l = Fin ly
                           /\ LayerData.width l = Fin lw
                           /\ LayerData.height l = Fin lh).
{ intros l Hl. destruct (finiteLayer_inv l Hl) as (lx & ly & lw & lh & E).
  exists lx, ly, lw, lh. now apply layerRect_fields. }
destruct (fold_min_spec LayerData.x ls vx) with (a := PInf)
  as (mX & EmX & HmX & _ & LmX);
  [apply Hf; intros l Hl; destruct (Hlay l Hl) as (? & ? & ? & ? & -> & _);
   reflexivity | now left | ].
destruct (fold_min_spec LayerData.y ls vy) with (a := PInf)
  as (mY & EmY & HmY & _ & LmY);
  [apply Hf; intros l Hl;
   destruct (Hlay l Hl) as (? & ? & ? & ? & _ & -> & _);
   reflexivity | now left | ].
destruct (fold_max_spec (fun l => LayerData.x l + LayerData.width l)
                        ls (vx + vw)) with (a := NInf)
  as (MX & EMX & HMX & _ & LMX);
  [apply Hf; intros l Hl;
   destruct (Hlay l Hl) as (? & ? & ? & ? & -> & _ & -> & _);
   reflexivity | now left | ].
destruct (fold_max_spec (fun l => LayerData.y l + LayerData.height l)
                        ls (vy + vh)) with (a := NInf)
  as (MY & EMY & HMY & _ & LMY);
  [apply Hf; intros l Hl;
   destruct (Hlay l Hl) as (? & ? & ? & ? & _ & -> & _ & ->);
   reflexivity | now left | ].
exists mX, mY, MX, MY. split; [ | split].
- rewrite fold_includeLayer. unfold includeViewport, rectQ.
  cbn [minX minY maxX maxY Rect.x Rect.y Rect.width Rect.height].
  rewrite !add_fin. now rewrite EmX, EmY, EMX, EMY.
- now repeat split.
- intros l lx ly lw lh Hin E.
  apply layerRect_fields in E as (Ex & Ey & Ew & Eh).
  repeat split.
  + now apply (LmX l).
  + now apply (LmY l).
  + apply (LMX l); [assumption | ]. now rewrite Ex, Ew.
  + apply (LMY l); [assumption | ]. now rewrite Ey, Eh.
Qed.

(** Membership of a point in a finite rectangle, over the rationals. *)
Lemma contains_fin (x y w h : Q) (p : Point.t) :
  contains (rectQ x y w h) p = true <->
  exists px py, p = Point.mk (Fin px) (Fin py)
                /\ x <= px <= x + w /\ y <= py <= y + h.
Proof.
unfold contains, rectQ. cbn [Rect.x Rect.y Rect.width Rect.height].
rewrite !add_fin. split.
- intros H. apply andb_prop in H as [H H4]. apply andb_prop in H as [H H3].
  apply andb_prop in H as [H1 H2].
  destruct p as [[px | | | ] [py | | | ]]; cbn in H1, H2, H3, H4;
    try discriminate.
  exists px, py. rewrite Qle_bool_iff in H1, H2, H3, H4. now repeat split.
- intros (px & py & -> & [H1 H2] & [H3 H4]). cbn.
  rewrite <- Qle_bool_iff in H1, H2, H3, H4. now rewrite H1, H2, H3, H4.
Qed.

(** The rectangle returned for a given extent contains every point
    between the extremes. *)
Lemma padded_contains (mX mY MX MY px py : Q) :
  mX <= px <= MX -> mY <= py <= MY ->
  let cw := (MX - mX)%Q in
  let ch := (MY - mY)%Q in
  let padding := (Qmax cw ch * (1 # 10))%Q in
  (mX - padding <= px <= mX - padding + (cw + padding * 2)
   /\ mY - padding <= py <= mY - padding + (ch + padding * 2))%Q.
Proof.
intros Hx Hy cw ch padding.
assert (0 <= Qmax cw ch).
{ apply Qle_trans with cw; [unfold cw; lra | apply Q.le_max_l]. }
assert (0 <= padding) by (unfold padding; lra).
unfold cw, ch in *. lra.
Qed.

(** C6.  Bounds inclusion: for finite layers and a finite viewport
    rectangle, every point of the viewport rectangle and every point of
    the rectangle [[x, x+width] x [y, y+height]] of a layer lies in the
    content bounds. *)
Theorem bounds_inclusion (layers : list LayerData.t) (viewport : Rect.t)
    (p : Point.t) :
  forallb finiteLayer layers = true ->
  finiteRect viewport = true ->
  contains viewport p = true
  \/ (exists l, In l layers /\ contains (layerRect l) p = true) ->
  contains (contentBounds layers viewport) p = true.
Proof.
intros Hfin Hv Hp.
destruct (finiteRect_inv _ Hv) as (vx & vy & vw & vh & ->).
destruct layers as [ | l0 ls].
- destruct Hp as [Hp | (l & [] & _)].
  apply contains_fin in Hp as (px & py & -> & Hx & Hy).
  unfold contentBounds, rectQ.
  cbn [Rect.x Rect.y Rect.width Rect.height].
  autorewrite with js. fold (rectQ (vx - Qmax vw vh * (1 # 10))
                                   (vy - Qmax vw vh * (1 # 10))
                                   (vw + Qmax vw vh * (1 # 10) * 2)
                                   (vh + Qmax vw vh * (1 # 10) * 2)).
  apply contains_fin. exists px, py. split; [reflexivity | ].
  assert (0 <= Qmax vw vh).
  { apply Qle_trans with vw; [lra | apply Q.le_max_l]. }
  lra.
- destruct (extent_spec (l0 :: ls) vx vy vw vh Hfin)
    as (mX & mY & MX & MY & E & (V1 & V2 & V3 & V4) & L).
  assert (Hin : exists px py, p = Point.mk (Fin px) (Fin py)
                              /\ mX <= px <= MX /\ mY <= py <= MY).
  { destruct Hp as [Hp | (l & Hl & Hp)].
    - apply contains_fin in Hp as (px & py & -> & Hx & Hy).
      exists px, py. split; [reflexivity | lra].
    - rewrite forallb_forall in Hfin.
      destruct (finiteLayer_inv l (Hfin l Hl)) as (lx & ly & lw & lh & El).
      rewrite El in Hp.
      apply contains_fin in Hp as (px & py & -> & Hx & Hy).
      destruct (L l lx ly lw lh Hl El) as (L1 & L2 & L3 & L4).
      exists px, py. split; [reflexivity | lra]. }
  destruct Hin as (px & py & -> & Hx & Hy).
  unfold contentBounds. rewrite E. cbn [minX minY maxX maxY].
  autorewrite with js.
  match goal with
  | |- contains {| Rect.x := Fin ?a; Rect.y := Fin ?b;
                   Rect.width := Fin ?c; Rect.height := Fin ?d |} _ = true =>
      fold (rectQ a b c d)
  end.
  apply contains_fin. exists px, py. split; [reflexivity | ].
  exact (padded_contains mX mY MX MY px py Hx Hy).
Qed.

Lemma bounds_inclusion_witness :
  let layer := LayerData.mk "a" "image" (Fin 100) (Fin 100) (Fin 50) (Fin 50)
                            false in
  contains (contentBounds [layer] (rectQ 0 0 80 60))
           (Point.mk (Fin 120) (Fin 130)) = true.
Proof.
intros layer.
apply (bounds_inclusion [layer] (rectQ 0 0 80 60));
  [reflexivity | reflexivity | ].
right. exists layer. split; [left; reflexivity | reflexivity].
Defined.

(** C7.  With no layer, the content bounds are the viewport rectangle
    moved up and left by [padding = max(width, height) * 0.1] and grown
    by twice the padding in width and in height. *)
Theorem empty_layers_bounds :
  (forall viewport : Rect.t,
      let padding :=
        JS.max (Rect.width viewport) (Rect.height viewport) * Fin (1 # 10) in
      contentBounds [] viewport
      = Rect.mk (Rect.x viewport - padding)
                (Rect.y viewport - padding)
                (Rect.width viewport + padding * Fin 2)
                (Rect.height viewport + padding * Fin 2))
  /\ (forall vx vy vw vh : Q,
         let padding := ((1 # 10) * Qmax vw vh)%Q in
         exists x y w h : Q,
           contentBounds [] (rectQ vx vy vw vh) = rectQ x y w h
           /\ x == vx - padding /\ y == vy - padding
           /\ w == vw + 2 * padding /\ h == vh + 2 * padding).
Proof.
split.
- reflexivity.
- intros vx vy vw vh padding.
  exists (vx - Qmax vw vh * (1 # 10))%Q, (vy - Qmax vw vh * (1 # 10))%Q,
    (vw + Qmax vw vh * (1 # 10) * 2)%Q, (vh + Qmax vw vh * (1 # 10) * 2)%Q.
  split; [reflexivity | ]. unfold padding. repeat split; ring.
Qed.

(* ================================================================== *)
(** * Persisted history *)
(* ================================================================== *)

Section History.
Variable history : list (list LayerData.t).

Lemma trimmedHistory_skipn :
  trimmedHistory history = skipn (trimmedCount history) history.
Proof.
unfold trimmedHistory, JSArray.slice, trimmedCount, MAX_HISTORY_STATES.
cbn [Z.opp Z.ltb Z.compare Pos.compare]. f_equal. lia.
Qed.

Lemma trimmedHistory_suffix :
  history = firstn (trimmedCount history) history ++ trimmedHistory history.
Proof. rewrite trimmedHistory_skipn. symmetry. apply firstn_skipn. Qed.

Lemma trimmedHistory_length :
  List.length (trimmedHistory history) = Nat.min 20 (List.length history).
Proof.
rewrite trimmedHistory_skipn, length_skipn. unfold trimmedCount. lia.
Qed.

Lemma adjustedIndex_eq (historyIndex : Z) :
  adjustedIndex history historyIndex
  = Z.max 0 (historyIndex - Z.of_nat (trimmedCount history)).
Proof.
unfold adjustedIndex. rewrite trimmedHistory_length. unfold trimmedCount.
f_equal. lia.
Qed.

(** C9.  When the database opens and the transaction completes,
    [saveHistory] stores under the key [history] the last at most 20
    entries of the history (a suffix of it), with the index reduced by
    the number of entries left out and not below 0; so the stored index
    is non-negative and the stored history has at most 20 entries.
    Otherwise the store is unchanged. *)
Theorem saveHistory_trims (env : Env) (store : ObjectStore)
    (historyIndex : Z) :
  let store' := fst (saveHistory env store history historyIndex) in
  (dbOpens env && txCompletes env = true ->
   exists persisted index,
     store' "history"%string = Some (HistoryValue persisted index)
     /\ history = firstn (trimmedCount history) history ++ persisted
     /\ List.length persisted = Nat.min 20 (List.length history)
     /\ index = Z.max 0 (historyIndex - Z.of_nat (trimmedCount history))
     /\ (0 <= index)%Z
     /\ (List.length persisted <= 20)%nat)
  /\ (dbOpens env && txCompletes env = false -> store' = store).
Proof.
intros store'. subst store'. unfold saveHistory. split.
- intros H. apply andb_prop in H as [-> ->]. cbn [fst].
  exists (trimmedHistory history), (adjustedIndex history historyIndex).
  split; [reflexivity | ].
  split; [apply trimmedHistory_suffix | ].
  split; [apply trimmedHistory_length | ].
  split; [apply adjustedIndex_eq | ].
  split; [unfold adjustedIndex; lia | ].
  rewrite trimmedHistory_length. lia.
- intros H. destruct (dbOpens env), (txCompletes env);
    try discriminate; reflexivity.
Qed.

End History.

Lemma saveHistory_trims_witness :
  let history := repeat ([] : list LayerData.t) 23 in
  let env := {| dbOpens := true; txCompletes := true |} in
  exists persisted index,
    fst (saveHistory env (fun _ => None) history 22) "history"%string
    = Some (HistoryValue persisted index)
    /\ List.length persisted = 20%nat /\ index = 19%Z.
Proof.
intros history env.
destruct (saveHistory_trims history env (fun _ => None) 22)
  as [Hsaved _].
destruct (Hsaved eq_refl) as (persisted & index & E & _ & Hlen & Hidx & _).
exists persisted, index. split; [exact E | split; [exact Hlen | exact Hidx]].
Defined.

(* ================================================================== *)
(** * Thumbnail dimensions *)
(* ================================================================== *)

Lemma inject_Z_pos (z : Z) : (0 < z)%Z -> 0 < inject_Z z.
Proof. intros H. change 0 with (inject_Z 0). now rewrite <- Zlt_Qlt. Qed.

(** C10.  For an image of strictly positive natural width and height,
    the computed dimensions keep the aspect ratio and their larger one
    is 256: a landscape image gets width 256 and height
    [256 * naturalHeight / naturalWidth], any other image height 256 and
    width [256 * naturalWidth / naturalHeight]. *)
Theorem thumbnail_dimensions (naturalWidth naturalHeight : Z) :
  (0 < naturalWidth)%Z -> (0 < naturalHeight)%Z ->
  let nw := inject_Z naturalWidth in
  let nh := inject_Z naturalHeight in
  exists width height : Q,
    dimensions (Fin nw) (Fin nh) = (Fin width, Fin height)
    /\ ((naturalHeight < naturalWidth)%Z ->
        width == 256 /\ height == 256 * nh / nw)
    /\ ((naturalWidth <= naturalHeight)%Z ->
        height == 256 /\ width == 256 * nw / nh)
    /\ Qmax width height == 256
    /\ width / height == nw / nh.
Proof.
intros Hw Hh nw nh.
assert (Hnw : 0 < nw) by now apply inject_Z_pos.
assert (Hnh : 0 < nh) by now apply inject_Z_pos.
assert (HZ : forall a b : Z, inject_Z a < inject_Z b -> (a < b)%Z)
  by (intros a b H; now rewrite Zlt_Qlt).
unfold dimensions, THUMBNAIL_SIZE, JS.gt.
destruct (Qcompare_spec nw nh) as [E | Hlt | Hgt];
  rewrite div_fin_pos by assumption.
- (* square *)
  exists (nw / nh * 256)%Q, 256. split; [reflexivity | ].
  assert (Hr : nw / nh == 1) by (rewrite E; field; lra).
  split; [ | split; [ | split]].
  + intros Hc. exfalso. rewrite Zlt_Qlt in Hc. fold nw nh in Hc. lra.
  + intros _. split; [reflexivity | field; lra].
  + rewrite Hr. reflexivity.
  + field. lra.
- (* portrait *)
  exists (nw / nh * 256)%Q, 256. split; [reflexivity | ].
  assert (Hr : nw / nh < 1) by (apply Qlt_shift_div_r; lra).
  split; [ | split; [ | split]].
  + intros Hc. exfalso. apply HZ in Hlt. lia.
  + intros _. split; [reflexivity | field; lra].
  + rewrite Q.max_r by lra. reflexivity.
  + field. lra.
- (* landscape *)
  exists 256, (nh / nw * 256)%Q. split; [reflexivity | ].
  assert (Hr : nh / nw < 1) by (apply Qlt_shift_div_r; lra).
  split; [ | split; [ | split]].
  + intros _. split; [reflexivity | field; lra].
  + intros Hc. exfalso. apply HZ in Hgt. lia.
  + rewrite Q.max_l by lra. reflexivity.
  + field. split; lra.
Qed.

Lemma thumbnail_dimensions_witness :
  exists width height : Q,
    dimensions (Fin (inject_Z 1024)) (Fin (inject_Z 768))
    = (Fin width, Fin height)
    /\ width == 256 /\ height == 192.
Proof.
destruct (thumbnail_dimensions 1024 768 eq_refl eq_refl)
  as (width & height & E & Hland & _).
exists width, height. split; [exact E | ].
destruct (Hland eq_refl) as [Hwd Hht]. split; [exact Hwd | ].
rewrite Hht. vm_compute. reflexivity.
Defined.

(* ================================================================== *)
(** * Render order *)
(* ================================================================== *)

Section SortFacts.
Context {A : Type}.
Variable comparefn : A -> A -> Z.

Lemma insert_front (a : A) (l : list A) :
  (forall b, In b l -> (comparefn a b <= 0)%Z) ->
  JSArray.insert comparefn a l = a :: l.
Proof.
destruct l as [ | b l]; intros H; cbn [JSArray.insert]; [reflexivity | ].
specialize (H b (or_introl eq_refl)).
apply Z.leb_le in H. now rewrite H.
Qed.

Lemma insert_app (a : A) (l1 l2 : list A) :
  (forall b, In b l1 -> (0 < comparefn a b)%Z) ->
  JSArray.insert comparefn a (l1 ++ l2)
  = l1 ++ JSArray.insert comparefn a l2.
Proof.
induction l1 as [ | b l1 IH]; intros H; cbn [app JSArray.insert].
- reflexivity.
- assert (Hb := H b (or_introl eq_refl)).
  apply Z.leb_gt in Hb. rewrite Hb. f_equal.
  apply IH. intros c Hc. apply H. now right.
Qed.

Lemma insert_perm (a : A) (l : list A) :
  Permutation (a :: l) (JSArray.insert comparefn a l).
Proof.
induction l as [ | b l IH]; cbn [JSArray.insert]; [reflexivity | ].
destruct (comparefn a b <=? 0)%Z; [reflexivity | ].
rewrite perm_swap. now apply perm_skip.
Qed.

Lemma sort_perm (l : list A) : Permutation l (JSArray.sort comparefn l).
Proof.
induction l as [ | a l IH]; cbn [JSArray.sort]; [reflexivity | ].
rewrite <- insert_perm. now apply perm_skip.
Qed.

End SortFacts.

Section RenderOrder.
Variable selectedLayerId : option string.

Let sel := isSelected selectedLayerId.
Let cmp := compareLayers selectedLayerId.

Lemma isSelected_id (a b : LayerData.t) :
  sel a = true -> sel b = true -> LayerData.id a = LayerData.id b.
Proof.
unfold sel, isSelected. destruct selectedLayerId as [s | ]; [ | discriminate].
rewrite !String.eqb_eq. congruence.
Qed.

(** Layer ids are unique, so a list that follows a selected layer holds
    no selected layer. *)
Lemma unique_selected (a : LayerData.t) (ls : list LayerData.t) :
  NoDup (map LayerData.id (a :: ls)) -> sel a = true ->
  forall b, In b ls -> sel b = false.
Proof.
intros Hnd Ha b Hb. destruct (sel b) eqn:E; [exfalso | reflexivity].
cbn [map] in Hnd. apply NoDup_cons_iff in Hnd as [Hnotin _].
apply Hnotin. rewrite (isSelected_id a b Ha E). now apply in_map.
Qed.

Lemma filter_nil_of (p : LayerData.t -> bool) (ls : list LayerData.t) :
  (forall b, In b ls -> p b = false) -> filter p ls = [].
Proof.
induction ls as [ | b ls IH]; intros H; cbn [filter]; [reflexivity | ].
rewrite (H b (or_introl eq_refl)). apply IH. intros c Hc. apply H. now right.
Qed.

Ltac class_of b H :=
  apply filter_In in H as [_ H];
  apply andb_prop in H as [?Hg ?Hs];
  try (apply negb_true_iff in Hg); try (apply negb_true_iff in Hs).

Ltac eval_cmp :=
  unfold cmp, compareLayers;
  repeat match goal with
         | H : isGroup _ = _ |- _ => rewrite H
         | H : isSelected _ _ = _ |- _ => rewrite H
         | H : sel _ = _ |- _ => unfold sel in H; rewrite H
         end;
  cbn [andb negb]; try lia.

(** Two layers that are not both selected are compared the same way in
    either order of the arguments. *)
Lemma compareLayers_swap (a b : LayerData.t) :
  sel a && sel b = false -> cmp b a = (- cmp a b)%Z.
Proof.
unfold sel, cmp, compareLayers. intros H.
destruct (isGroup a), (isGroup b), (isSelected selectedLayerId a),
  (isSelected selectedLayerId b); cbn in H |- *; congruence.
Qed.

(** With unique ids, the sorted list is the concatenation of the four
    classes: groups, the selected group, other layers, the selected
    layer. *)
Lemma sortedLayers_classes (layers : list LayerData.t) :
  NoDup (map LayerData.id layers) ->
  sortedLayers layers selectedLayerId
  = plainGroups selectedLayerId layers ++ selectedGroups selectedLayerId layers
    ++ plainLayers selectedLayerId layers
    ++ selectedLayers selectedLayerId layers.
Proof.
unfold sortedLayers.
induction layers as [ | a ls IH]; intros Hnd; [reflexivity | ].
cbn [JSArray.sort]. rewrite IH by (cbn [map] in Hnd; now inversion Hnd).
clear IH. fold cmp.
unfold plainGroups, selectedGroups, plainLayers, selectedLayers.
cbn [filter].
destruct (isGroup a) eqn:Ga; destruct (isSelected selectedLayerId a) eqn:Sa;
  cbn [andb negb].
- (* the selected group *)
  assert (Hno := unique_selected a ls Hnd Sa).
  rewrite (filter_nil_of (fun l => isGroup l && isSelected selectedLayerId l))
    by (intros b Hb; fold sel; rewrite (Hno b Hb); apply andb_false_r).
  rewrite (filter_nil_of
             (fun l => negb (isGroup l) && isSelected selectedLayerId l))
    by (intros b Hb; fold sel; rewrite (Hno b Hb); apply andb_false_r).
  cbn [app]. rewrite insert_app.
  + f_equal. rewrite app_nil_r. apply insert_front.
    intros b Hb. class_of b Hb. eval_cmp.
  + intros b Hb. class_of b Hb. eval_cmp.
- (* a group that is not selected *)
  apply insert_front. intros b Hb.
  destruct (isGroup b) eqn:Gb; destruct (isSelected selectedLayerId b) eqn:Sb;
    eval_cmp.
- (* the selected layer, not a group *)
  assert (Hno := unique_selected a ls Hnd Sa).
  rewrite (filter_nil_of (fun l => isGroup l && isSelected selectedLayerId l))
    by (intros b Hb; fold sel; rewrite (Hno b Hb); apply andb_false_r).
  rewrite (filter_nil_of
             (fun l => negb (isGroup l) && isSelected selectedLayerId l))
    by (intros b Hb; fold sel; rewrite (Hno b Hb); apply andb_false_r).
  cbn [app]. rewrite insert_app.
  + f_equal. apply (insert_app cmp a _ []).
    intros b Hb. class_of b Hb. eval_cmp.
  + intros b Hb. class_of b Hb. eval_cmp.
- (* a layer that is neither *)
  rewrite insert_app; [rewrite insert_app; [rewrite insert_front | ] | ].
  + reflexivity.
  + intros b Hb.
    apply in_app_or in Hb as [Hb | Hb]; class_of b Hb; eval_cmp.
  + intros b Hb. class_of b Hb. eval_cmp.
  + intros b Hb. class_of b Hb. eval_cmp.
Qed.

End RenderOrder.

Section RenderOrderTheorem.
Variable selectedLayerId : option string.

Lemma selected_filter (p : LayerData.t -> bool) (s : LayerData.t)
    (layers : list LayerData.t) :
  NoDup (map LayerData.id layers) -> In s layers ->
  isSelected selectedLayerId s = true -> p s = true ->
  filter (fun l => p l && isSelected selectedLayerId l) layers = [s].
Proof.
intros Hnd Hin Hs Hp.
induction layers as [ | a ls IH]; [destruct Hin | ].
cbn [filter]. destruct Hin as [-> | Hin].
- rewrite Hp, Hs. cbn [andb]. f_equal. apply filter_nil_of.
  intros b Hb. rewrite (unique_selected selectedLayerId s ls Hnd Hs b Hb).
  apply andb_false_r.
- destruct (isSelected selectedLayerId a) eqn:Sa.
  + exfalso.
    now rewrite (unique_selected selectedLayerId a ls Hnd Sa s Hin) in Hs.
  + rewrite andb_false_r. apply IH; [ | assumption].
    cbn [map] in Hnd. now inversion Hnd.
Qed.

(** Groups come first whatever the ids are. *)
Lemma insert_groups_first (a : LayerData.t) (gs ns : list LayerData.t) :
  Forall (fun l => isGroup l = true) gs ->
  Forall (fun l => isGroup l = false) ns ->
  exists gs' ns',
    JSArray.insert (compareLayers selectedLayerId) a (gs ++ ns) = gs' ++ ns'
    /\ Forall (fun l => isGroup l = true) gs'
    /\ Forall (fun l => isGroup l = false) ns'.
Proof.
intros Hgs Hns. destruct (isGroup a) eqn:Ga.
- induction Hgs as [ | b gs Hb Hgs IH].
  + exists [a], ns. split; [ | split; [now constructor | assumption]].
    cbn [app]. apply insert_front. intros b Hb.
    rewrite Forall_forall in Hns. unfold compareLayers.
    rewrite Ga, (Hns b Hb). cbn. lia.
  + cbn [app JSArray.insert].
    destruct (compareLayers selectedLayerId a b <=? 0)%Z.
    * exists (a :: b :: gs), ns.
      split; [reflexivity | split; [ | assumption]].
      now repeat constructor.
    * destruct IH as (gs' & ns' & E & Hgs' & Hns').
      exists (b :: gs'), ns'. rewrite E.
      split; [reflexivity | split; [now constructor | assumption]].
- exists gs, (JSArray.insert (compareLayers selectedLayerId) a ns).
  split; [ | split; [assumption | ]].
  + apply insert_app. intros b Hb.
    rewrite Forall_forall in Hgs. unfold compareLayers.
    rewrite Ga, (Hgs b Hb). cbn. lia.
  + rewrite <- (insert_perm (compareLayers selectedLayerId) a ns).
    now constructor.
Qed.

Lemma sortedLayers_groups_first (layers : list LayerData.t) :
  exists groups others,
    sortedLayers layers selectedLayerId = groups ++ others
    /\ Forall (fun l => isGroup l = true) groups
    /\ Forall (fun l => isGroup l = false) others.
Proof.
unfold sortedLayers. induction layers as [ | a ls IH]; cbn [JSArray.sort].
- exists [], []. now repeat split.
- destruct IH as (gs & ns & -> & Hgs & Hns).
  now apply insert_groups_first.
Qed.

(** C3 (amended).  The render order is a rearrangement of the layers in
    which every group comes before every layer that is not a group.
    When the ids are distinct, a selected layer that is not a group is
    the last of all, and a selected group is the last of the groups,
    in front of all the layers that are not groups. *)
Theorem render_order (layers : list LayerData.t) :
  let out := sortedLayers layers selectedLayerId in
  Permutation layers out
  /\ (exists groups others,
         out = groups ++ others
         /\ Forall (fun l => isGroup l = true) groups
         /\ Forall (fun l => isGroup l = false) others)
  /\ (NoDup (map LayerData.id layers) ->
      forall s, In s layers -> isSelected selectedLayerId s = true ->
        (isGroup s = false -> exists front, out = front ++ [s])
        /\ (isGroup s = true ->
            exists front others,
              out = front ++ s :: others
              /\ Forall (fun l => isGroup l = true) front
              /\ Forall (fun l => isGroup l = false) others)).
Proof.
intros out. split; [apply sort_perm | ].
split; [apply sortedLayers_groups_first | ].
intros Hnd s Hin Hs. subst out.
rewrite (sortedLayers_classes selectedLayerId layers Hnd).
split; intros Hg.
- exists (plainGroups selectedLayerId layers
          ++ selectedGroups selectedLayerId layers
          ++ plainLayers selectedLayerId layers).
  unfold selectedLayers.
  rewrite (selected_filter (fun l => negb (isGroup l)) s layers Hnd Hin Hs)
    by (now rewrite Hg).
  now rewrite <- !app_assoc.
- exists (plainGroups selectedLayerId layers),
    (plainLayers selectedLayerId layers
     ++ selectedLayers selectedLayerId layers).
  unfold selectedGroups.
  rewrite (selected_filter isGroup s layers Hnd Hin Hs Hg).
  split; [reflexivity | split].
  + apply Forall_forall. intros l Hl.
    apply filter_In in Hl as [_ Hl]. now apply andb_prop in Hl as [Hl _].
  + apply Forall_app. split; apply Forall_forall; intros l Hl;
      apply filter_In in Hl as [_ Hl]; apply andb_prop in Hl as [Hl _];
      now apply negb_true_iff in Hl.
Qed.

End RenderOrderTheorem.

Lemma render_order_witness :
  exists front,
    sortedLayers [sampleImage; sampleGroup] (Some "p"%string)
    = front ++ [sampleImage].
Proof.
destruct (render_order (Some "p"%string) [sampleImage; sampleGroup])
  as (_ & _ & Hsel).
assert (Hnd : NoDup (map LayerData.id [sampleImage; sampleGroup])).
{ cbn. repeat constructor; cbn; intuition discriminate. }
destruct (Hsel Hnd sampleImage (or_introl eq_refl) eq_refl) as [Hlast _].
exact (Hlast eq_refl).
Defined.

(** C3 (as stated) fails: a selected group is placed with the groups,
    before the layers that are not groups, and so is not last. *)
Lemma render_order_counterexample :
  sortedLayers [sampleGroup; sampleImage] (Some "g"%string)
  = [sampleGroup; sampleImage]
  /\ sortedLayers [sampleImage; sampleGroup] (Some "g"%string)
     = [sampleGroup; sampleImage]
  /\ ~ (exists front,
           sortedLayers [sampleGroup; sampleImage] (Some "g"%string)
           = front ++ [sampleGroup]).
Proof.
split; [reflexivity | split; [reflexivity | ]].
intros [front E]. apply (f_equal (@rev _)) in E.
rewrite rev_app_distr in E. cbn in E. discriminate E.
Qed.

(* ================================================================== *)
(** * More on the content bounds *)
(* ================================================================== *)

Section Attained.
Variable f : LayerData.t -> num.

Lemma fold_min_attained (ls : list LayerData.t) (v : Q) :
  (forall l, In l ls -> is_finite (f l) = true) ->
  forall a m, lowOk a ->
    JS.min (fold_left (fun a l => JS.min a (f l)) ls a) (Fin v) = Fin m ->
    m == v \/ (exists q, a = Fin q /\ m == q)
    \/ (exists l, In l ls /\ m == toQ (f l)).
Proof.
induction ls as [ | l ls IH]; intros Hfin a m Ha; cbn [fold_left].
- destruct Ha as [-> | [q ->]]; cbn [JS.min]; intros [= <-].
  + now left.
  + destruct (Q.min_dec q v) as [E | E]; [right; left | left]; eauto.
- intros E.
  destruct (finite_inv (f l) (Hfin l (or_introl eq_refl))) as [ql Hl].
  assert (Ha' : lowOk (JS.min a (f l))).
  { rewrite Hl. destruct Ha as [-> | [q ->]]; right; eexists; reflexivity. }
  destruct (IH (fun l' H' => Hfin l' (or_intror H')) _ m Ha' E)
    as [Hv | [(q' & Hq' & Hm) | (l' & Hin & Hm)]].
  + now left.
  + rewrite Hl in Hq'. destruct Ha as [-> | [q ->]]; cbn [JS.min] in Hq'.
    * injection Hq' as <-. right. right. exists l.
      split; [now left | ]. now rewrite Hl.
    * injection Hq' as <-.
      destruct (Q.min_dec q ql) as [E' | E'].
      -- right. left. exists q. split; [reflexivity | ]. now rewrite Hm.
      -- right. right. exists l. split; [now left | ].
         rewrite Hl. cbn [toQ]. now rewrite Hm.
  + right. right. exists l'. split; [now right | exact Hm].
Qed.

Lemma fold_max_attained (ls : list LayerData.t) (v : Q) :
  (forall l, In l ls -> is_finite (f l) = true) ->
  forall a m, highOk a ->
    JS.max (fold_left (fun a l => JS.max a (f l)) ls a) (Fin v) = Fin m ->
    m == v \/ (exists q, a = Fin q /\ m == q)
    \/ (exists l, In l ls /\ m == toQ (f l)).
Proof.
induction ls as [ | l ls IH]; intros Hfin a m Ha; cbn [fold_left].
- destruct Ha as [-> | [q ->]]; cbn [JS.max]; intros [= <-].
  + now left.
  + destruct (Q.max_dec q v) as [E | E]; [right; left | left]; eauto.
- intros E.
  destruct (finite_inv (f l) (Hfin l (or_introl eq_refl))) as [ql Hl].
  assert (Ha' : highOk (JS.max a (f l))).
  { rewrite Hl. destruct Ha as [-> | [q ->]]; right; eexists; reflexivity. }
  destruct (IH (fun l' H' => Hfin l' (or_intror H')) _ m Ha' E)
    as [Hv | [(q' & Hq' & Hm) | (l' & Hin & Hm)]].
  + now left.
  + rewrite Hl in Hq'. destruct Ha as [-> | [q ->]]; cbn [JS.max] in Hq'.
    * injection Hq' as <-. right. right. exists l.
      split; [now left | ]. now rewrite Hl.
    * injection Hq' as <-.
      destruct (Q.max_dec q ql) as [E' | E'].
      -- right. left. exists q. split; [reflexivity | ]. now rewrite Hm.
      -- right. right. exists l. split; [now left | ].
         rewrite Hl. cbn [toQ]. now rewrite Hm.
  + right. right. exists l'. split; [now right | exact Hm].
Qed.

End Attained.

Lemma finiteLayer_toQ (l : LayerData.t) :
  finiteLayer l = true ->
  layerRect l = rectQ (toQ (LayerData.x l)) (toQ (LayerData.y l))
                      (toQ (LayerData.width l)) (toQ (LayerData.height l)).
Proof.
intros Hl. destruct (finiteLayer_inv l Hl) as (lx & ly & lw & lh & E).
destruct (layerRect_fields l lx ly lw lh E) as (-> & -> & -> & ->).
exact E.
Qed.

(** The extent computed by the loop is the bounding box of the viewport
    and the layers: each side is the least, or the greatest, of the
    corresponding edges. *)
Lemma extent_box (ls : list LayerData.t) (vx vy vw vh : Q) :
  forallb finiteLayer ls = true ->
  let v := rectQ vx vy vw vh in
  exists mX mY MX MY : Q,
    includeViewport
      (fold_left includeLayer ls
                 {| minX := PInf; minY := PInf; maxX := NInf; maxY := NInf |})
      v
    = {| minX := Fin mX; minY := Fin mY; maxX := Fin MX; maxY := Fin MY |}
    /\ isMinOf mX (leftEdges ls v) /\ isMinOf mY (topEdges ls v)
    /\ isMaxOf MX (rightEdges ls v) /\ isMaxOf MY (bottomEdges ls v).
Proof.
intros Hfin v.
destruct (extent_spec ls vx vy vw vh Hfin)
  as (mX & mY & MX & MY & E & (V1 & V2 & V3 & V4) & L).
exists mX, mY, MX, MY. split; [exact E | ].
rewrite forallb_forall in Hfin.
assert (Lq : forall l, In l ls ->
               mX <= toQ (LayerData.x l) /\ mY <= toQ (LayerData.y l)
               /\ toQ (LayerData.x l + LayerData.width l) <= MX
               /\ toQ (LayerData.y l + LayerData.height l) <= MY).
{ intros l Hl. assert (El := finiteLayer_toQ l (Hfin l Hl)).
  destruct (L l _ _ _ _ Hl El) as (L1 & L2 & L3 & L4).
  apply layerRect_fields in El as (Ex & Ey & Ew & Eh).
  rewrite Ex, Ey, Ew, Eh in *. cbn [add toQ]. now repeat split. }
assert (Hf : forall (g : LayerData.t -> num),
           (forall l, finiteLayer l = true -> is_finite (g l) = true) ->
           forall l, In l ls -> is_finite (g l) = true)
  by (intros g Hg l Hin; apply Hg, Hfin, Hin).
assert (Hfld : forall l, finiteLayer l = true ->
           is_finite (LayerData.x l) = true
           /\ is_finite (LayerData.y l) = true
           /\ is_finite (LayerData.x l + LayerData.width l) = true
           /\ is_finite (LayerData.y l + LayerData.height l) = true).
{ intros l Hl. apply finiteLayer_toQ, layerRect_fields in Hl
    as (-> & -> & -> & ->). now repeat split. }
rewrite fold_includeLayer in E. unfold includeViewport, v, rectQ in E.
cbn [minX minY maxX maxY Rect.x Rect.y Rect.width Rect.height] in E.
rewrite !add_fin in E. injection E as EmX EmY EMX EMY.
unfold isMinOf, isMaxOf, leftEdges, topEdges, rightEdges, bottomEdges, v,
  rectQ.
cbn [Rect.x Rect.y Rect.width Rect.height toQ add].
repeat split.
- intros q [<- | Hq]; [exact V1 | ].
  apply in_map_iff in Hq as (l & <- & Hl). now apply Lq.
- apply fold_min_attained in EmX as [Hv | [(q & [=] & _) | (l & Hl & Hm)]];
    [ | | | now left].
  + exists vx. split; [now left | exact Hv].
  + exists (toQ (LayerData.x l)). split; [right | exact Hm].
    now apply (in_map (fun l => toQ (LayerData.x l))).
  + apply Hf. intros l Hl. now apply Hfld.
- intros q [<- | Hq]; [exact V2 | ].
  apply in_map_iff in Hq as (l & <- & Hl). now apply Lq.
- apply fold_min_attained in EmY as [Hv | [(q & [=] & _) | (l & Hl & Hm)]];
    [ | | | now left].
  + exists vy. split; [now left | exact Hv].
  + exists (toQ (LayerData.y l)). split; [right | exact Hm].
    now apply (in_map (fun l => toQ (LayerData.y l))).
  + apply Hf. intros l Hl. now apply Hfld.
- intros q [<- | Hq]; [exact V3 | ].
  apply in_map_iff in Hq as (l & <- & Hl). now apply Lq.
- apply fold_max_attained in EMX as [Hv | [(q & [=] & _) | (l & Hl & Hm)]];
    [ | | | now left].
  + exists (vx + vw)%Q. split; [now left | exact Hv].
  + exists (toQ (LayerData.x l + LayerData.width l)). split; [right | exact Hm].
    now apply (in_map (fun l => toQ (LayerData.x l + LayerData.width l))).
  + apply Hf. intros l Hl. now apply Hfld.
- intros q [<- | Hq]; [exact V4 | ].
  apply in_map_iff in Hq as (l & <- & Hl). now apply Lq.
- apply fold_max_attained in EMY as [Hv | [(q & [=] & _) | (l & Hl & Hm)]];
    [ | | | now left].
  + exists (vy + vh)%Q. split; [now left | exact Hv].
  + exists (toQ (LayerData.y l + LayerData.height l)).
    split; [right | exact Hm].
    now apply (in_map (fun l => toQ (LayerData.y l + LayerData.height l))).
  + apply Hf. intros l Hl. now apply Hfld.
Qed.

(** The content bounds are the bounding box of the viewport and the
    layers, moved and grown by the padding. *)
Lemma contentBounds_box (ls : list LayerData.t) (vx vy vw vh : Q) :
  forallb finiteLayer ls = true ->
  let v := rectQ vx vy vw vh in
  exists bx by_ w h mX mY MX MY : Q,
    contentBounds ls v = rectQ bx by_ w h
    /\ isMinOf mX (leftEdges ls v) /\ isMinOf mY (topEdges ls v)
    /\ isMaxOf MX (rightEdges ls v) /\ isMaxOf MY (bottomEdges ls v)
    /\ (let padding := ((1 # 10) * Qmax (MX - mX) (MY - mY))%Q in
        bx == mX - padding /\ by_ == mY - padding
        /\ w == MX - mX + 2 * padding /\ h == MY - mY + 2 * padding).
Proof.
intros Hfin v. destruct ls as [ | l0 ls].
- exists (vx - Qmax vw vh * (1 # 10))%Q, (vy - Qmax vw vh * (1 # 10))%Q,
    (vw + Qmax vw vh * (1 # 10) * 2)%Q, (vh + Qmax vw vh * (1 # 10) * 2)%Q,
    vx, vy, (vx + vw)%Q, (vy + vh)%Q.
  split; [reflexivity | ].
  unfold isMinOf, isMaxOf, leftEdges, topEdges, rightEdges, bottomEdges, v,
    rectQ.
  cbn [Rect.x Rect.y Rect.width Rect.height toQ add map].
  assert (Hm : Qmax (vx + vw - vx) (vy + vh - vy) == Qmax vw vh).
  { apply Q.max_compat; ring. }
  repeat split;
    try (intros q [<- | []]; apply Qle_refl);
    try (eexists; split; [left; reflexivity | reflexivity]);
    rewrite Hm; ring.
- destruct (extent_box (l0 :: ls) vx vy vw vh Hfin)
    as (mX & mY & MX & MY & E & HmX & HmY & HMX & HMY).
  exists (mX - Qmax (MX - mX) (MY - mY) * (1 # 10))%Q,
    (mY - Qmax (MX - mX) (MY - mY) * (1 # 10))%Q,
    (MX - mX + Qmax (MX - mX) (MY - mY) * (1 # 10) * 2)%Q,
    (MY - mY + Qmax (MX - mX) (MY - mY) * (1 # 10) * 2)%Q,
    mX, mY, MX, MY.
  split; [ | repeat (split; [assumption | ]); repeat split; ring].
  subst v. unfold contentBounds. cbv zeta in E |- *. rewrite E. reflexivity.
Qed.

(** Least and greatest elements depend on the members only. *)
Lemma isMinOf_unique (m m' : Q) (qs qs' : list Q) :
  (forall q, In q qs <-> In q qs') ->
  isMinOf m qs -> isMinOf m' qs' -> m == m'.
Proof.
intros Hmem [Hlo (q & Hq & Eq)] [Hlo' (q' & Hq' & Eq')].
apply Qle_antisym.
- rewrite Eq'. apply Hlo. now apply Hmem.
- rewrite Eq. apply Hlo'. now apply Hmem.
Qed.

Lemma isMaxOf_unique (m m' : Q) (qs qs' : list Q) :
  (forall q, In q qs <-> In q qs') ->
  isMaxOf m qs -> isMaxOf m' qs' -> m == m'.
Proof.
intros Hmem [Hhi (q & Hq & Eq)] [Hhi' (q' & Hq' & Eq')].
apply Qle_antisym.
- rewrite Eq. apply Hhi'. now apply Hmem.
- rewrite Eq'. apply Hhi. now apply Hmem.
Qed.

Lemma edges_members (g : LayerData.t -> Q) (ls ls' : list LayerData.t)
    (v : Q) :
  Permutation ls ls' ->
  forall q, In q (v :: map g ls) <-> In q (v :: map g ls').
Proof.
intros Hp q.
assert (Hp' : Permutation (v :: map g ls) (v :: map g ls'))
  by now apply perm_skip, Permutation_map.
split; apply Permutation_in; [exact Hp' | now symmetry].
Qed.

Lemma forallb_perm (p : LayerData.t -> bool) (ls ls' : list LayerData.t) :
  Permutation ls ls' -> forallb p ls = true -> forallb p ls' = true.
Proof.
intros Hp H. rewrite forallb_forall in *. intros l Hl. apply H.
apply (Permutation_in l (Permutation_sym Hp) Hl).
Qed.

Lemma contentBounds_perm (ls ls' : list LayerData.t) (vx vy vw vh : Q) :
  Permutation ls ls' -> forallb finiteLayer ls = true ->
  rectEq (contentBounds ls (rectQ vx vy vw vh))
         (contentBounds ls' (rectQ vx vy vw vh)).
Proof.
intros Hp Hfin. assert (Hfin' := forallb_perm _ _ _ Hp Hfin).
destruct (contentBounds_box ls vx vy vw vh Hfin)
  as (bx & by_ & w & h & mX & mY & MX & MY & -> & HmX & HmY & HMX & HMY
      & Ex & Ey & Ew & Eh).
destruct (contentBounds_box ls' vx vy vw vh Hfin')
  as (bx' & by' & w' & h' & mX' & mY' & MX' & MY' & -> & HmX' & HmY'
      & HMX' & HMY' & Ex' & Ey' & Ew' & Eh').
assert (E1 : mX == mX')
  by (eapply isMinOf_unique; [ | exact HmX | exact HmX'];
      now apply edges_members).
assert (E2 : mY == mY')
  by (eapply isMinOf_unique; [ | exact HmY | exact HmY'];
      now apply edges_members).
assert (E3 : MX == MX')
  by (eapply isMaxOf_unique; [ | exact HMX | exact HMX'];
      now apply edges_members).
assert (E4 : MY == MY')
  by (eapply isMaxOf_unique; [ | exact HMY | exact HMY'];
      now apply edges_members).
assert (Em : Qmax (MX - mX) (MY - mY) == Qmax (MX' - mX') (MY' - mY'))
  by (apply Q.max_compat; [rewrite E1, E3 | rewrite E2, E4]; reflexivity).
unfold rectEq, rectQ. cbn [Rect.x Rect.y Rect.width Rect.height eqn].
rewrite Ex, Ey, Ew, Eh, Ex', Ey', Ew', Eh', Em, E1, E2, E3, E4.
now repeat split.
Qed.

(** X1.  For finite layers and a finite viewport, the content bounds
    are exactly the bounding box of the viewport and the layers, moved
    up and left by the padding and grown by twice the padding, where
    the padding is a tenth of the larger side of the bounding box: the
    bounds are never larger than that. *)
Theorem contentBounds_padded_bounding_box (ls : list LayerData.t)
    (vx vy vw vh : Q) :
  forallb finiteLayer ls = true ->
  let v := rectQ vx vy vw vh in
  exists bx by_ w h mX mY MX MY : Q,
    contentBounds ls v = rectQ bx by_ w h
    /\ isMinOf mX (leftEdges ls v) /\ isMinOf mY (topEdges ls v)
    /\ isMaxOf MX (rightEdges ls v) /\ isMaxOf MY (bottomEdges ls v)
    /\ (let padding := ((1 # 10) * Qmax (MX - mX) (MY - mY))%Q in
        bx == mX - padding /\ by_ == mY - padding
        /\ w == MX - mX + 2 * padding /\ h == MY - mY + 2 * padding).
Proof. exact (contentBounds_box ls vx vy vw vh). Qed.

Lemma contentBounds_padded_bounding_box_witness :
  exists bx by_ w h : Q,
    contentBounds [sampleImage] (rectQ 0 0 80 60) = rectQ bx by_ w h
    /\ w == 96 /\ h == 76.
Proof.
destruct (contentBounds_padded_bounding_box [sampleImage] 0 0 80 60 eq_refl)
  as (bx & by_ & w & h & mX & mY & MX & MY & E & _).
exists bx, by_, w, h. split; [exact E | ].
cbv in E. injection E as <- <- <- <-. split; reflexivity.
Defined.

(** X2.  The content bounds do not depend on the order of the layers;
    in particular they are the same for the layers in render order. *)
Theorem contentBounds_order_independent (ls : list LayerData.t)
    (vx vy vw vh : Q) :
  forallb finiteLayer ls = true ->
  (forall ls', Permutation ls ls' ->
     rectEq (contentBounds ls (rectQ vx vy vw vh))
            (contentBounds ls' (rectQ vx vy vw vh)))
  /\ (forall selectedLayerId,
        rectEq (contentBounds ls (rectQ vx vy vw vh))
               (contentBounds (sortedLayers ls selectedLayerId)
                              (rectQ vx vy vw vh))).
Proof.
intros Hfin. split.
- intros ls' Hp. now apply contentBounds_perm.
- intros sel. apply contentBounds_perm; [apply sort_perm | exact Hfin].
Qed.

Lemma contentBounds_order_independent_witness :
  rectEq (contentBounds [sampleImage; sampleGroup] (rectQ 0 0 80 60))
         (contentBounds [sampleGroup; sampleImage] (rectQ 0 0 80 60)).
Proof.
destruct (contentBounds_order_independent
            [sampleImage; sampleGroup] 0 0 80 60 eq_refl) as [Hperm _].
apply Hperm. apply perm_swap.
Defined.

(** The size of the content bounds, and what they cover, for a viewport
    of non-negative width and height. *)
Lemma contentBounds_cover (ls : list LayerData.t) (vx vy vw vh : Q) :
  forallb finiteLayer ls = true -> 0 <= vw -> 0 <= vh ->
  exists bx by_ w h : Q,
    contentBounds ls (rectQ vx vy vw vh) = rectQ bx by_ w h
    /\ vw <= w /\ vh <= h
    /\ (w == 0 <-> h == 0)
    /\ (0 < vw \/ 0 < vh -> 0 < w /\ 0 < h)
    /\ (forall px py : Q,
           contains (rectQ vx vy vw vh) (Point.mk (Fin px) (Fin py)) = true
           \/ (exists l, In l ls
                 /\ contains (layerRect l) (Point.mk (Fin px) (Fin py))
                    = true) ->
           bx <= px <= bx + w /\ by_ <= py <= by_ + h).
Proof.
intros Hfin Hvw Hvh.
destruct (contentBounds_box ls vx vy vw vh Hfin)
  as (bx & by_ & w & h & mX & mY & MX & MY & E
      & [LmX _] & [LmY _] & [LMX _] & [LMY _] & Ex & Ey & Ew & Eh).
exists bx, by_, w, h. split; [exact E | ].
unfold leftEdges, topEdges, rightEdges, bottomEdges, rectQ in *.
cbn [Rect.x Rect.y Rect.width Rect.height toQ add] in *.
assert (V1 := LmX vx (or_introl eq_refl)).
assert (V2 := LmY vy (or_introl eq_refl)).
assert (V3 := LMX (vx + vw)%Q (or_introl eq_refl)).
assert (V4 := LMY (vy + vh)%Q (or_introl eq_refl)).
assert (M1 := Q.le_max_l (MX - mX) (MY - mY)).
assert (M2 := Q.le_max_r (MX - mX) (MY - mY)).
set (M := Qmax (MX - mX) (MY - mY)) in *.
split; [lra | ]. split; [lra | ]. split; [split; lra | ].
split; [intros Hv; split; lra | ].
intros px py Hp.
assert (Hin : mX <= px <= MX /\ mY <= py <= MY).
{ destruct Hp as [Hp | (l & Hl & Hp)].
  - apply (contains_fin vx vy vw vh) in Hp
      as (px' & py' & Epp & Hx & Hy).
    injection Epp as Ep1 Ep2. subst px' py'. lra.
  - rewrite forallb_forall in Hfin.
    rewrite (finiteLayer_toQ l (Hfin l Hl)) in Hp.
    apply contains_fin in Hp as (px' & py' & Epp & Hx & Hy).
    injection Epp as Ep1 Ep2. subst px' py'.
    assert (L1 := LmX _ (or_intror (in_map
                     (fun l => toQ (LayerData.x l)) ls l Hl))).
    assert (L2 := LmY _ (or_intror (in_map
                     (fun l => toQ (LayerData.y l)) ls l Hl))).
    assert (L3 := LMX _ (or_intror (in_map
                     (fun l => toQ (LayerData.x l + LayerData.width l))
                     ls l Hl))).
    assert (L4 := LMY _ (or_intror (in_map
                     (fun l => toQ (LayerData.y l + LayerData.height l))
                     ls l Hl))).
    cbn beta in L1, L2, L3, L4.
    destruct (finiteLayer_inv l (Hfin l Hl)) as (lx & ly & lw & lh & El).
    apply layerRect_fields in El as (Ex' & Ey' & Ew' & Eh').
    rewrite Ex', Ey', Ew', Eh' in *. cbn [toQ add] in *. lra. }
lra.
Qed.

(** X3.  For finite layers and a viewport of non-negative width and
    height, the content bounds are at least as wide and as high as the
    viewport, their width is zero exactly when their height is zero,
    and both are strictly positive as soon as the viewport has a
    positive width or height; [fitScale] is then finite and positive
    for every positive zoom. *)
Theorem contentBounds_positive (ls : list LayerData.t) (vx vy vw vh : Q) :
  forallb finiteLayer ls = true -> 0 <= vw -> 0 <= vh ->
  exists bx by_ w h : Q,
    contentBounds ls (rectQ vx vy vw vh) = rectQ bx by_ w h
    /\ vw <= w /\ vh <= h
    /\ (w == 0 <-> h == 0)
    /\ (0 < vw \/ 0 < vh ->
        0 < w /\ 0 < h
        /\ forall zoom : Q, 0 < zoom ->
             exists s, fitScale (contentBounds ls (rectQ vx vy vw vh))
                                (Fin zoom) = Fin s
                       /\ 0 < s).
Proof.
intros Hfin Hvw Hvh.
destruct (contentBounds_cover ls vx vy vw vh Hfin Hvw Hvh)
  as (bx & by_ & w & h & E & Hw & Hh & Hz & Hpos & _).
exists bx, by_, w, h. repeat (split; [assumption | ]).
intros Hv. destruct (Hpos Hv) as [Hw' Hh'].
split; [assumption | split; [assumption | ]].
intros zoom Hzoom. exists (fitScaleQ w h zoom). rewrite E. split.
- now apply fitScale_fin.
- now apply fitScaleQ_pos.
Qed.

Lemma contentBounds_positive_witness :
  exists s : Q,
    fitScale (contentBounds [sampleImage] (rectQ 0 0 80 0)) (Fin 1) = Fin s
    /\ 0 < s.
Proof.
destruct (contentBounds_positive [sampleImage] 0 0 80 0 eq_refl)
  as (bx & by_ & w & h & _ & _ & _ & _ & Hpos); try lra.
destruct Hpos as (_ & _ & Hfit); [left; lra | ].
exact (Hfit 1 ltac:(lra)).
Defined.

(* ================================================================== *)
(** * More on the transform *)
(* ================================================================== *)

Lemma Qhalf (x : Q) : x / 2 == x * (1 # 2).
Proof. field. Qed.

(** At a zoom of at most 1 the scaled content fits the display. *)
Lemma fitScaleQ_fits (w h zoom : Q) :
  0 < w -> 0 < h -> 0 < zoom <= 1 ->
  0 < fitScaleQ w h zoom
  /\ w * fitScaleQ w h zoom <= 200 /\ h * fitScaleQ w h zoom <= 150.
Proof.
intros Hw Hh [Hz Hz1]. unfold fitScaleQ.
assert (H1 := Q.le_min_l (200 / w) (150 / h)).
assert (H2 := Q.le_min_r (200 / w) (150 / h)).
assert (P1 : 0 < 200 / w) by (apply Qlt_shift_div_l; lra).
assert (P2 : 0 < 150 / h) by (apply Qlt_shift_div_l; lra).
assert (Hr : 0 < Qmin (200 / w) (150 / h)).
{ destruct (Q.min_spec (200 / w) (150 / h)) as [[_ E] | [_ E]];
    rewrite E; assumption. }
set (r := Qmin (200 / w) (150 / h)) in *.
assert (A1 : w * r <= 200).
{ assert (E : w * (200 / w) == 200) by (field; lra).
  rewrite <- E. apply Qmult_le_l; assumption. }
assert (A2 : h * r <= 150).
{ assert (E : h * (150 / h) == 150) by (field; lra).
  rewrite <- E. apply Qmult_le_l; assumption. }
split; [apply Qmult_lt_0_compat; assumption | ].
split; nra.
Qed.

Lemma display_fit (b w s p D : Q) :
  0 < s -> w * s <= D -> b <= p <= b + w ->
  0 <= (p - b) * s + (D - w * s) / 2 <= D.
Proof.
intros Hs Hws [H1 H2]. rewrite Qhalf.
assert (T1 : 0 <= (p - b) * s) by (apply Qmult_le_0_compat; lra).
assert (T2 : (p - b) * s <= w * s) by (apply Qmult_le_compat_r; lra).
split; lra.
Qed.

Lemma inDisplay_fin (a b : Q) :
  0 <= a <= 200 -> 0 <= b <= 150 -> inDisplay (Fin a) (Fin b) = true.
Proof.
intros [A1 A2] [B1 B2]. unfold inDisplay, MINIMAP_WIDTH, MINIMAP_HEIGHT.
cbn [leb]. rewrite <- Qle_bool_iff in A1, A2, B1, B2.
now rewrite A1, A2, B1, B2.
Qed.

(** A point of the content rectangle is drawn inside the display when
    the zoom is at most 1. *)
Lemma worldToMinimap_display (bx by_ w h zoom px py : Q) :
  0 < w -> 0 < h -> 0 < zoom <= 1 ->
  bx <= px <= bx + w -> by_ <= py <= by_ + h ->
  let m := worldToMinimap (rectQ bx by_ w h) (Fin zoom) (Fin px) (Fin py) in
  inDisplay (ScaledPoint.x m) (ScaledPoint.y m) = true.
Proof.
intros Hw Hh Hz Hx Hy m. subst m.
destruct (fitScaleQ_fits w h zoom Hw Hh Hz) as (Hs & Fw & Fh).
rewrite (worldToMinimap_fin bx by_ w h zoom _ px py
           (fitScale_fin bx by_ w h zoom Hw Hh)).
cbn [ScaledPoint.x ScaledPoint.y].
apply inDisplay_fin; now apply display_fit.
Qed.

(** X4.  At a zoom of at most 1, every point of the viewport rectangle
    and of the rectangle of a layer is drawn inside the 200 by 150
    display (the layers are finite, the viewport has a non-negative
    width and height, one of them positive). *)
Theorem content_drawn_inside_display (ls : list LayerData.t)
    (vx vy vw vh zoom px py : Q) :
  forallb finiteLayer ls = true ->
  0 <= vw -> 0 <= vh -> 0 < vw \/ 0 < vh ->
  0 < zoom <= 1 ->
  contains (rectQ vx vy vw vh) (Point.mk (Fin px) (Fin py)) = true
  \/ (exists l, In l ls
        /\ contains (layerRect l) (Point.mk (Fin px) (Fin py)) = true) ->
  let m := worldToMinimap (contentBounds ls (rectQ vx vy vw vh))
                          (Fin zoom) (Fin px) (Fin py) in
  inDisplay (ScaledPoint.x m) (ScaledPoint.y m) = true.
Proof.
intros Hfin Hvw Hvh Hv Hz Hp.
destruct (contentBounds_cover ls vx vy vw vh Hfin Hvw Hvh)
  as (bx & by_ & w & h & -> & _ & _ & _ & Hpos & Hcov).
destruct (Hpos Hv) as [Hw Hh]. destruct (Hcov px py Hp) as [Hx Hy].
now apply worldToMinimap_display.
Qed.

Lemma content_drawn_inside_display_witness :
  let m := worldToMinimap (contentBounds [sampleImage] (rectQ 0 0 80 60))
                          (Fin 1) (Fin 30) (Fin 30) in
  inDisplay (ScaledPoint.x m) (ScaledPoint.y m) = true.
Proof.
apply (content_drawn_inside_display [sampleImage] 0 0 80 60 1 30 30);
  try reflexivity; try lra.
right. exists sampleImage. split; [left; reflexivity | reflexivity].
Defined.



Section MoreTransform.
Variables bx by_ w h zoom : Q.
Hypothesis Hw : 0 < w.
Hypothesis Hh : 0 < h.
Hypothesis Hzoom : 0 < zoom.

Let b := rectQ bx by_ w h.

(** X6.  Whatever the zoom, the centre of the content rectangle is
    drawn at the centre of the display, (100, 75). *)
Theorem bounds_centre_at_display_centre :
  let m := worldToMinimap b (Fin zoom) (Fin (bx + w / 2)) (Fin (by_ + h / 2)) in
  ScaledPoint.x m =~ Fin 100 /\ ScaledPoint.y m =~ Fin 75.
Proof.
intros m. subst m b.
rewrite (worldToMinimap_fin bx by_ w h zoom _ _ _
           (fitScale_fin bx by_ w h zoom Hw Hh)).
cbn [ScaledPoint.x ScaledPoint.y eqn]. split; field.
Qed.

(** X7.  The other round trip: converting a minimap point to world
    coordinates and back returns the point. *)
Theorem round_trip_from_minimap (mx my : Q) :
  let p := minimapToWorld b (Fin zoom) (Fin mx) (Fin my) in
  let m := worldToMinimap b (Fin zoom) (Point.x p) (Point.y p) in
  ScaledPoint.x m =~ Fin mx /\ ScaledPoint.y m =~ Fin my.
Proof.
intros p m. subst m p b.
assert (Hs : 0 < fitScaleQ w h zoom) by (now apply fitScaleQ_pos).
rewrite (minimapToWorld_fin bx by_ w h zoom (fitScaleQ w h zoom) mx my);
  [ | lra | now apply fitScale_fin].
cbn [Point.x Point.y].
rewrite (worldToMinimap_fin bx by_ w h zoom _ _ _
           (fitScale_fin bx by_ w h zoom Hw Hh)).
cbn [ScaledPoint.x ScaledPoint.y eqn]. split; field; lra.
Qed.

End MoreTransform.

Lemma bounds_centre_at_display_centre_witness :
  let m := worldToMinimap (rectQ 10 20 400 300) (Fin 3)
                          (Fin (10 + 400 / 2)) (Fin (20 + 300 / 2)) in
  ScaledPoint.x m =~ Fin 100 /\ ScaledPoint.y m =~ Fin 75.
Proof.
apply (bounds_centre_at_display_centre 10 20 400 300 3); lra.
Defined.

Lemma round_trip_from_minimap_witness :
  let b := rectQ 10 20 400 300 in
  let p := minimapToWorld b (Fin 2) (Fin 50) (Fin 60) in
  let m := worldToMinimap b (Fin 2) (Point.x p) (Point.y p) in
  ScaledPoint.x m =~ Fin 50 /\ ScaledPoint.y m =~ Fin 60.
Proof.
apply (round_trip_from_minimap 10 20 400 300 2); lra.
Defined.

(* ================================================================== *)
(** * More on the handlers *)
(* ================================================================== *)

Section MoreHandlers.
Variables W H l t scale : Q.
Hypothesis Hscale : 0 < scale.
Variables bx by_ w h zoom : Q.
Hypothesis Hw : 0 < w.
Hypothesis Hh : 0 < h.
Hypothesis Hzoom : 0 < zoom.

Let window := {| innerWidth := Fin W; innerHeight := Fin H |}.
Let rect := {| left := Fin l; top := Fin t |}.
Let b := rectQ bx by_ w h.

(** X8.  A click on the centre of the viewport marker, while no drag is
    in progress, proposes the offset that the canvas already has: the
    view does not move. *)
Theorem click_on_marker_centre_keeps_offset (st : State)
    (cox coy cx cy : Q) :
  isDraggingViewport st = false ->
  minimapZoom st = Fin zoom ->
  let viewport :=
    getViewportInWorld window (Point.mk (Fin cox) (Fin coy)) (Fin scale) in
  let marker := viewportRect viewport b (Fin zoom) in
  Fin cx - Fin l =~ Point.x (rectCenter marker) ->
  Fin cy - Fin t =~ Point.y (rectCenter marker) ->
  exists ox oy : Q,
    handleMinimapClick window st (Some rect) b (Fin scale) (mouseAt cx cy)
    = [Point.mk (Fin ox) (Fin oy)]
    /\ ox == cox /\ oy == coy.
Proof.
intros Hidle Hz viewport marker Hcx Hcy.
assert (Hs : 0 < fitScaleQ w h zoom) by (now apply fitScaleQ_pos).
subst marker viewport.
rewrite (getViewportInWorld_fin W H scale Hscale) in Hcx, Hcy.
unfold b in Hcx, Hcy.
rewrite (viewportRect_fin bx by_ w h zoom Hw Hh) in Hcx, Hcy.
unfold rectCenter, rectQ in Hcx, Hcy.
cbn [Rect.x Rect.y Rect.width Rect.height Point.x Point.y] in Hcx, Hcy.
autorewrite with js in Hcx, Hcy. cbn [eqn] in Hcx, Hcy.
unfold handleMinimapClick. rewrite Hidle, Hz.
cbn [mouseAt clientX clientY left top rect]. autorewrite with js.
unfold b.
rewrite (minimapToWorld_fin bx by_ w h zoom (fitScaleQ w h zoom));
  [ | lra | now apply fitScale_fin].
unfold centerOn, window. cbn [innerWidth innerHeight Point.x Point.y].
autorewrite with js.
eexists _, _. split; [reflexivity | ].
rewrite Hcx, Hcy. split; field; lra.
Qed.

End MoreHandlers.

Lemma click_on_marker_centre_keeps_offset_witness :
  let window := {| innerWidth := Fin 800; innerHeight := Fin 600 |} in
  let rect := {| left := Fin 10; top := Fin 20 |} in
  exists ox oy : Q,
    handleMinimapClick window initialState (Some rect) (rectQ 0 0 400 300)
                       (Fin 4) (mouseAt 60 (115 # 2))
    = [Point.mk (Fin ox) (Fin oy)]
    /\ ox == 0 /\ oy == 0.
Proof.
apply (click_on_marker_centre_keeps_offset 800 600 10 20 4 ltac:(lra)
         0 0 400 300 1 ltac:(lra) ltac:(lra) ltac:(lra)
         initialState 0 0 60 (115 # 2)); reflexivity.
Defined.

(** ** Sequences of events *)

Lemma handleViewportMouseDown_zoom (st : State) (r : option DOMRect)
    (marker : Rect.t) (e : MouseEvent) :
  minimapZoom (handleViewportMouseDown st r marker e) = minimapZoom st.
Proof. now destruct r. Qed.

Lemma dispatch_zoom (host : MinimapView.Host) (props : MinimapView.Props)
    (st : State) (ev : MinimapView.Event) (z : Q) :
  finiteWheel ev = true ->
  minimapZoom st = Fin z -> 1 # 2 <= z <= 3 ->
  exists z', minimapZoom (fst (MinimapView.dispatch host props st ev)) = Fin z'
             /\ 1 # 2 <= z' <= 3.
Proof.
intros Hev Hz Hr.
destruct ev as [e | e | e | | | | e]; cbn [MinimapView.dispatch fst];
  try (exists z; split; [assumption | exact Hr]).
- exists z. split; [ | exact Hr]. now rewrite handleViewportMouseDown_zoom.
- destruct e as [d]. cbn [finiteWheel deltaY] in Hev.
  destruct (finite_inv d Hev) as [q ->].
  exists (clampZoom (z + - q * (2 # 1000))). split.
  + exact (handleWheel_zoom st z q Hz).
  + apply clampZoom_range.
Qed.

Lemma run_cons (host : MinimapView.Host) (props : MinimapView.Props)
    (ev : MinimapView.Event)
    (trace : list (MinimapView.Host * MinimapView.Props * MinimapView.Event))
    (st : State) :
  MinimapView.run ((host, props, ev) :: trace) st
  = (fst (MinimapView.run trace
            (fst (MinimapView.dispatch host props st ev))),
     snd (MinimapView.dispatch host props st ev)
     ++ snd (MinimapView.run trace
               (fst (MinimapView.dispatch host props st ev)))).
Proof.
cbn [MinimapView.run].
destruct (MinimapView.dispatch host props st ev) as [st1 out1].
cbn [fst snd]. now destruct (MinimapView.run trace st1).
Qed.

(** X9.  Whatever events arrive, in whatever order and whatever the
    layers and the view are, the minimap zoom stays in [0.5, 3] (the
    wheel deltas being finite). *)
Theorem events_keep_zoom_in_range
    (trace : list (MinimapView.Host * MinimapView.Props * MinimapView.Event)) :
  forallb finiteWheel (eventsOf trace) = true ->
  exists z,
    minimapZoom (fst (MinimapView.run trace initialState)) = Fin z
    /\ 1 # 2 <= z <= 3.
Proof.
intros Hfin.
assert (Hgen : forall st z, minimapZoom st = Fin z -> 1 # 2 <= z <= 3 ->
          exists z', minimapZoom (fst (MinimapView.run trace st)) = Fin z'
                     /\ 1 # 2 <= z' <= 3).
{ induction trace as [ | [[host props] ev] trace IH]; intros st z Hz Hr.
  - now exists z.
  - cbn [eventsOf map snd forallb] in Hfin.
    apply andb_prop in Hfin as [Hev Hfin].
    rewrite run_cons. cbn [fst].
    destruct (dispatch_zoom host props st ev z Hev Hz Hr) as (z1 & Hz1 & Hr1).
    exact (IH Hfin _ z1 Hz1 Hr1). }
apply (Hgen initialState 1); [reflexivity | lra].
Qed.

Lemma events_keep_zoom_in_range_witness :
  let host := {| MinimapView.window :=
                   {| innerWidth := Fin 800; innerHeight := Fin 600 |};
                 MinimapView.containerRect :=
                   Some {| left := Fin 0; top := Fin 0 |} |} in
  let props := {| MinimapView.layers := [sampleImage];
                  MinimapView.selectedLayerId := None;
                  MinimapView.canvasOffset := Point.mk (Fin 0) (Fin 0);
                  MinimapView.scale := Fin 1 |} in
  exists z,
    minimapZoom
      (fst (MinimapView.run
              [(host, props, MinimapView.Wheel (wheel (-5000)));
               (host, props, MinimapView.ViewportMouseDown (mouseAt 5 5));
               (host, props, MinimapView.Wheel (wheel 10))]
              initialState)) = Fin z
    /\ 1 # 2 <= z <= 3.
Proof.
intros host props.
apply (events_keep_zoom_in_range
         [(host, props, MinimapView.Wheel (wheel (-5000)));
          (host, props, MinimapView.ViewportMouseDown (mouseAt 5 5));
          (host, props, MinimapView.Wheel (wheel 10))]).
reflexivity.
Defined.

Lemma dispatch_idle (host : MinimapView.Host) (props : MinimapView.Props)
    (st : State) (ev : MinimapView.Event) :
  isDraggingViewport st = false -> isPress ev = false ->
  isDraggingViewport (fst (MinimapView.dispatch host props st ev)) = false
  /\ (isClick ev = false ->
      snd (MinimapView.dispatch host props st ev) = []).
Proof.
intros Hidle Hev.
destruct ev as [e | e | e | | | | e]; cbn [MinimapView.dispatch fst snd];
  try discriminate Hev; split; try (now intros); try assumption;
  try reflexivity.
intros _. unfold handleMouseMove. now rewrite Hidle.
Qed.

Lemma dispatch_at_most_one (host : MinimapView.Host)
    (props : MinimapView.Props) (st : State) (ev : MinimapView.Event) :
  (List.length (snd (MinimapView.dispatch host props st ev)) <= 1)%nat.
Proof.
destruct ev as [e | e | e | | | | e]; cbn [MinimapView.dispatch snd];
  try (cbn; lia).
- unfold handleMinimapClick.
  destruct (isDraggingViewport st), (MinimapView.containerRect host);
    cbn; lia.
- unfold handleMouseMove.
  destruct (isDraggingViewport st), (MinimapView.containerRect host);
    cbn; lia.
Qed.

Lemma run_idle
    (trace : list (MinimapView.Host * MinimapView.Props * MinimapView.Event)) :
  forall st,
    isDraggingViewport st = false ->
    forallb (fun ev => negb (isPress ev)) (eventsOf trace) = true ->
    isDraggingViewport (fst (MinimapView.run trace st)) = false
    /\ (List.length (snd (MinimapView.run trace st))
        <= List.length (filter isClick (eventsOf trace)))%nat.
Proof.
induction trace as [ | [[host props] ev] trace IH]; intros st Hidle Hnp.
- split; [assumption | cbn; lia].
- cbn [eventsOf map snd forallb] in Hnp.
  apply andb_prop in Hnp as [Hev Hnp]. apply negb_true_iff in Hev.
  destruct (dispatch_idle host props st ev Hidle Hev) as [Hidle1 Hout].
  destruct (IH _ Hidle1 Hnp) as [Hidle2 Hlen].
  rewrite run_cons. cbn [fst snd]. split; [assumption | ].
  rewrite length_app. cbn [eventsOf map snd filter].
  fold (eventsOf trace).
  destruct (isClick ev) eqn:Hc.
  + assert (H1 := dispatch_at_most_one host props st ev).
    cbn [List.length]. lia.
  + rewrite (Hout eq_refl). cbn [List.length]. lia.
Qed.

(** X10.  Pointer motion pans the canvas only during a drag.  An event
    proposes at most one offset.  From an idle state, as long as the
    viewport marker is not pressed, the state stays idle and only
    clicks propose offsets; and a release (inside the minimap, on
    leaving it, or anywhere in the window) always ends the drag. *)
Theorem motion_pans_only_while_dragging :
  (forall host props st ev,
      (List.length (snd (MinimapView.dispatch host props st ev)) <= 1)%nat)
  /\ (forall trace st,
         isDraggingViewport st = false ->
         forallb (fun ev => negb (isPress ev)) (eventsOf trace) = true ->
         isDraggingViewport (fst (MinimapView.run trace st)) = false
         /\ (List.length (snd (MinimapView.run trace st))
             <= List.length (filter isClick (eventsOf trace)))%nat)
  /\ (forall host props st ev,
         isRelease ev = true ->
         isDraggingViewport (fst (MinimapView.dispatch host props st ev))
         = false).
Proof.
split; [exact dispatch_at_most_one | split; [exact run_idle | ]].
intros host props st ev Hev.
destruct ev; try discriminate Hev; reflexivity.
Qed.

Lemma motion_pans_only_while_dragging_witness :
  let host := {| MinimapView.window :=
                   {| innerWidth := Fin 800; innerHeight := Fin 600 |};
                 MinimapView.containerRect :=
                   Some {| left := Fin 0; top := Fin 0 |} |} in
  let props := {| MinimapView.layers := [sampleImage];
                  MinimapView.selectedLayerId := None;
                  MinimapView.canvasOffset := Point.mk (Fin 0) (Fin 0);
                  MinimapView.scale := Fin 1 |} in
  snd (MinimapView.run
         [(host, props, MinimapView.MouseMove (mouseAt 5 5));
          (host, props, MinimapView.MouseUp);
          (host, props, MinimapView.MouseMove (mouseAt 9 9))]
         initialState) = [].
Proof.
intros host props.
destruct motion_pans_only_while_dragging as (_ & Hidle & _).
destruct (Hidle [(host, props, MinimapView.MouseMove (mouseAt 5 5));
                 (host, props, MinimapView.MouseUp);
                 (host, props, MinimapView.MouseMove (mouseAt 9 9))]
                initialState eq_refl eq_refl) as [_ Hlen].
cbn [eventsOf map snd filter isClick List.length] in Hlen.
destruct (snd (MinimapView.run _ initialState)); [reflexivity | ].
cbn in Hlen. lia.
Defined.

(* ================================================================== *)
(** * The storage service *)
(* ================================================================== *)

Section StoreFacts.
Variable env : Env.
Hypothesis Hopen : dbOpens env = true.
Hypothesis Htx : txCompletes env = true.

(** X11.  When the database opens and the requests succeed, the view
    state that [saveViewState] stores is what [loadViewState] returns,
    and the stored history is not touched. *)
Theorem viewState_round_trip (store : ObjectStore) (offset : Point.t)
    (scale : num) :
  let store' := fst (StorageService.saveViewState env store offset scale) in
  StorageService.loadViewState env store'
  = StorageService.Returned (Some (ViewStateValue offset scale))
  /\ StorageService.loadHistory env store'
     = StorageService.loadHistory env store.
Proof.
unfold StorageService.saveViewState, StorageService.loadViewState,
  StorageService.loadHistory.
rewrite Hopen, Htx. cbn [fst]. split; reflexivity.
Qed.

Lemma trimmedHistory_idem (history : list (list LayerData.t)) :
  trimmedHistory (trimmedHistory history) = trimmedHistory history.
Proof.
rewrite (trimmedHistory_skipn (trimmedHistory history)).
unfold trimmedCount. rewrite trimmedHistory_length.
replace (Nat.min 20 (List.length history) - 20)%nat with 0%nat by lia.
reflexivity.
Qed.

Lemma adjustedIndex_idem (history : list (list LayerData.t)) (i : Z) :
  adjustedIndex (trimmedHistory history) (adjustedIndex history i)
  = adjustedIndex history i.
Proof.
rewrite (adjustedIndex_eq (trimmedHistory history)).
unfold trimmedCount at 1. rewrite trimmedHistory_length.
replace (Nat.min 20 (List.length history) - 20)%nat with 0%nat by lia.
unfold adjustedIndex. lia.
Qed.

(** X12.  When the database opens and the requests succeed,
    [loadHistory] returns the trimmed history and the adjusted index
    that [saveHistory] stored, the stored view state is not touched,
    and saving again what was loaded leaves the store as it is. *)
Theorem history_round_trip (store : ObjectStore)
    (history : list (list LayerData.t)) (historyIndex : Z) :
  let store' := fst (saveHistory env store history historyIndex) in
  let persisted := trimmedHistory history in
  let index := adjustedIndex history historyIndex in
  StorageService.loadHistory env store'
  = StorageService.Returned (Some (HistoryValue persisted index))
  /\ StorageService.loadViewState env store'
     = StorageService.loadViewState env store
  /\ forall key, fst (saveHistory env store' persisted index) key
                 = store' key.
Proof.
unfold saveHistory, StorageService.loadViewState,
  StorageService.loadHistory.
rewrite Hopen, Htx. cbn [fst].
split; [reflexivity | split; [reflexivity | ]].
intros key. rewrite trimmedHistory_idem, adjustedIndex_idem.
unfold put. now destruct (String.eqb key "history").
Qed.

(** X13.  When the database opens and the transaction completes,
    [clearAllData] empties both stores: afterwards [loadViewState] and
    [loadHistory] return [null], and so does [loadLayers], which writes
    nothing. *)
Theorem clearAllData_empties (browser : ThumbnailService.Browser)
    (writeCompletes : bool)
    (stores : StorageService.LayersStore * ObjectStore) :
  let stores' := fst (StorageService.clearAllData env stores) in
  StorageService.loadViewState env (snd stores')
  = StorageService.Returned None
  /\ StorageService.loadHistory env (snd stores')
     = StorageService.Returned None
  /\ StorageService.loadLayers browser env writeCompletes (fst stores')
     = (fst stores', StorageService.Returned None).
Proof.
unfold StorageService.clearAllData, StorageService.loadViewState,
  StorageService.loadHistory, StorageService.loadLayers.
rewrite Hopen, Htx. cbn [fst snd]. now repeat split.
Qed.

End StoreFacts.

Lemma viewState_round_trip_witness :
  let env := {| dbOpens := true; txCompletes := true |} in
  StorageService.loadViewState
    env (fst (StorageService.saveViewState
                env (fun _ => None) (Point.mk (Fin 3) (Fin 4)) (Fin 2)))
  = StorageService.Returned
      (Some (ViewStateValue (Point.mk (Fin 3) (Fin 4)) (Fin 2))).
Proof.
intros env.
exact (proj1 (viewState_round_trip env eq_refl eq_refl (fun _ => None)
                (Point.mk (Fin 3) (Fin 4)) (Fin 2))).
Defined.

Lemma history_round_trip_witness :
  let env := {| dbOpens := true; txCompletes := true |} in
  let history := repeat ([] : list LayerData.t) 23 in
  StorageService.loadHistory env (fst (saveHistory env (fun _ => None)
                                                   history 22))
  = StorageService.Returned
      (Some (HistoryValue (trimmedHistory history)
                          (adjustedIndex history 22))).
Proof.
intros env history.
exact (proj1 (history_round_trip env eq_refl eq_refl (fun _ => None)
                history 22)).
Defined.

Lemma clearAllData_empties_witness :
  let env := {| dbOpens := true; txCompletes := true |} in
  let stores := (fun _ : string => Some ([] : list StorageService.StoredLayer),
                 fun _ : string => Some (HistoryValue [] 0)) in
  StorageService.loadHistory
    env (snd (fst (StorageService.clearAllData env stores)))
  = StorageService.Returned None.
Proof.
intros env stores.
pose (browser := {| ThumbnailService.loadImage := fun _ => None;
                    ThumbnailService.hasContext2d := true;
                    ThumbnailService.toDataURL := fun s _ _ => s |}).
exact (proj1 (proj2 (clearAllData_empties env eq_refl eq_refl browser true
                       stores))).
Defined.

(** X14.  The stored index still designates the entry that the index
    designated, when that entry is kept: for an index at or after the
    first kept entry and inside the history, the entry at the adjusted
    index of the trimmed history is the entry at the index of the
    history.  An index inside the history stays inside the trimmed
    history, and an index of an entry that is left out becomes 0. *)
Theorem adjustedIndex_same_entry (history : list (list LayerData.t))
    (historyIndex : Z) :
  (0 <= historyIndex < Z.of_nat (List.length history))%Z ->
  let index := adjustedIndex history historyIndex in
  (0 <= index < Z.of_nat (List.length (trimmedHistory history)))%Z
  /\ ((Z.of_nat (trimmedCount history) <= historyIndex)%Z ->
      nth_error (trimmedHistory history) (Z.to_nat index)
      = nth_error history (Z.to_nat historyIndex))
  /\ ((historyIndex < Z.of_nat (trimmedCount history))%Z -> index = 0%Z).
Proof.
intros Hi index. subst index.
rewrite adjustedIndex_eq, trimmedHistory_length.
assert (Hc : trimmedCount history = (List.length history - 20)%nat)
  by reflexivity.
split; [lia | split].
- intros Hkept. rewrite trimmedHistory_skipn, nth_error_skipn.
  f_equal. lia.
- intros Hout. lia.
Qed.

Lemma adjustedIndex_same_entry_witness :
  let history := repeat ([] : list LayerData.t) 23 in
  nth_error (trimmedHistory history) (Z.to_nat (adjustedIndex history 22))
  = nth_error history (Z.to_nat 22).
Proof.
intros history.
destruct (adjustedIndex_same_entry history 22) as (_ & Hsame & _).
- cbn. lia.
- apply Hsame. cbn. lia.
Defined.

(** ** [loadLayers] *)

Section LoadLayersFacts.
Variable browser : ThumbnailService.Browser.

Let migrate := StorageService.migrateLayer browser.

Lemma migrateLayer_spec (l : StorageService.StoredLayer) :
  migratedFrom browser l (fst (migrate l))
  /\ (snd (migrate l) = false -> fst (migrate l) = l)
  /\ (needsThumbnail l = false -> migrate l = (l, false)).
Proof.
assert (Hsame : migratedFrom browser l l)
  by (split; [reflexivity | split; [reflexivity | now left]]).
unfold migrate, StorageService.migrateLayer. fold (needsThumbnail l).
destruct (needsThumbnail l) eqn:Hn;
  [ | split; [exact Hsame | split; reflexivity]].
destruct (StorageService.src l) as [s | ] eqn:Hsrc;
  [ | split; [exact Hsame | split; [reflexivity | discriminate]]].
destruct (ThumbnailService.generateThumbnail browser s) as [t | m] eqn:Hg;
  [ | split; [exact Hsame | split; [reflexivity | discriminate]]].
cbn [fst snd]. split; [ | split; discriminate].
unfold migratedFrom.
cbn [StorageService.layer StorageService.src StorageService.thumbnail].
split; [reflexivity | split; [now rewrite Hsrc | ]].
right. split; [exact Hn | ]. exists s, t. now repeat split.
Qed.

Lemma generateThumbnail_nonEmpty (s t : string) :
  nonEmptyUrls browser ->
  ThumbnailService.generateThumbnail browser s
  = ThumbnailService.Fulfilled t ->
  t <> EmptyString.
Proof.
intros Hne. unfold ThumbnailService.generateThumbnail.
destruct (ThumbnailService.loadImage browser s) as [[nw nh] | ];
  [ | discriminate].
destruct (dimensions nw nh) as [wd ht].
destruct (ThumbnailService.hasContext2d browser); [ | discriminate].
intros [= <-]. apply Hne.
Qed.

Lemma migrateLayer_cases (l : StorageService.StoredLayer) :
  migrate l = (l, false)
  \/ exists s t,
       ThumbnailService.generateThumbnail browser s
       = ThumbnailService.Fulfilled t
       /\ migrate l
          = ({| StorageService.layer := StorageService.layer l;
                StorageService.src := StorageService.src l;
                StorageService.thumbnail := Some t |}, true).
Proof.
unfold migrate, StorageService.migrateLayer.
destruct (_ && _ && _); [ | now left].
destruct (StorageService.src l) as [s | ]; [ | now left].
destruct (ThumbnailService.generateThumbnail browser s) as [t | m] eqn:Hg;
  [ | now left].
right. now exists s, t.
Qed.

Lemma migrateLayer_idem (l : StorageService.StoredLayer) :
  nonEmptyUrls browser ->
  migrate (fst (migrate l)) = (fst (migrate l), false).
Proof.
intros Hne.
destruct (migrateLayer_cases l) as [E | (s & t & Hg & E)]; rewrite E;
  cbn [fst].
- exact E.
- apply (proj2 (proj2 (migrateLayer_spec _))).
  unfold needsThumbnail. cbn [StorageService.thumbnail StorageService.truthy].
  assert (Hne' := generateThumbnail_nonEmpty s t Hne Hg).
  apply String.eqb_neq in Hne'. rewrite Hne'. cbn [negb].
  apply andb_false_r.
Qed.

Lemma migrate_none (ls : list StorageService.StoredLayer) :
  existsb snd (map migrate ls) = false -> map fst (map migrate ls) = ls.
Proof.
induction ls as [ | l ls IH]; cbn [map existsb]; [reflexivity | ].
intros H. apply orb_false_iff in H as [Hl Hls].
rewrite (IH Hls). f_equal.
now apply (proj1 (proj2 (migrateLayer_spec l))).
Qed.

Lemma migrate_skip (ls : list StorageService.StoredLayer) :
  forallb (fun l => negb (needsThumbnail l)) ls = true ->
  existsb snd (map migrate ls) = false /\ map fst (map migrate ls) = ls.
Proof.
induction ls as [ | l ls IH]; cbn [map existsb forallb];
  [now split | ].
intros H. apply andb_prop in H as [Hl Hls].
apply negb_true_iff in Hl.
destruct (IH Hls) as [E1 E2].
rewrite (proj2 (proj2 (migrateLayer_spec l)) Hl).
cbn [fst snd orb]. now rewrite E1, E2.
Qed.

Lemma migrate_twice (ls : list StorageService.StoredLayer) :
  nonEmptyUrls browser ->
  existsb snd (map migrate (map fst (map migrate ls))) = false
  /\ map fst (map migrate (map fst (map migrate ls)))
     = map fst (map migrate ls).
Proof.
intros Hne. induction ls as [ | l ls [IH1 IH2]]; cbn [map existsb];
  [now split | ].
rewrite (migrateLayer_idem l Hne). cbn [fst snd orb].
now rewrite IH1, IH2.
Qed.


Variable env : Env.
Hypothesis Hopen : dbOpens env = true.
Hypothesis Htx : txCompletes env = true.

Lemma loadLayers_ok (store : StorageService.LayersStore)
    (stored : list StorageService.StoredLayer) :
  store "current"%string = Some stored ->
  let result := map fst (map migrate stored) in
  StorageService.loadLayers browser env true store
  = (if existsb snd (map migrate stored)
     then StorageService.putLayers result "current" store else store,
     StorageService.Returned (Some result)).
Proof.
intros Hst result. unfold StorageService.loadLayers.
rewrite Hopen, Htx, Hst. fold migrate.
destruct (existsb snd (map migrate stored)); reflexivity.
Qed.


(** X16.  Loading is idempotent (the data URLs not being empty): a
    second [loadLayers] returns what the first one returned and leaves
    the store as the first one left it, without writing. *)
Theorem loadLayers_idempotent (store : StorageService.LayersStore)
    (stored : list StorageService.StoredLayer) (writeCompletes : bool) :
  nonEmptyUrls browser ->
  store "current"%string = Some stored ->
  let first := StorageService.loadLayers browser env true store in
  StorageService.loadLayers browser env writeCompletes (fst first) = first.
Proof.
intros Hne Hst first. subst first.
rewrite (loadLayers_ok store stored Hst). cbn [fst].
destruct (migrate_twice stored Hne) as [E1 E2].
set (result := map fst (map migrate stored)) in *.
assert (Hcur : (if existsb snd (map migrate stored)
                then StorageService.putLayers result "current" store
                else store) "current"%string = Some result).
{ destruct (existsb snd (map migrate stored)) eqn:E; [reflexivity | ].
  rewrite Hst. f_equal. symmetry. now apply migrate_none. }
unfold StorageService.loadLayers at 1. rewrite Hopen, Htx, Hcur.
fold migrate. now rewrite E1, E2.
Qed.

(** X17.  Layers that need no thumbnail come back from [loadLayers] as
    [saveLayers] stored them, and loading writes nothing. *)
Theorem saveLayers_loadLayers_round_trip
    (store : StorageService.LayersStore)
    (layers : list StorageService.StoredLayer) (writeCompletes : bool) :
  forallb (fun l => negb (needsThumbnail l)) layers = true ->
  let store' := fst (StorageService.saveLayers env store layers) in
  StorageService.loadLayers browser env writeCompletes store'
  = (store', StorageService.Returned (Some layers)).
Proof.
intros Hskip store'. subst store'.
unfold StorageService.saveLayers, StorageService.loadLayers.
rewrite Hopen, Htx. cbn [fst]. unfold StorageService.putLayers at 1.
rewrite String.eqb_refl. fold migrate.
destruct (migrate_skip layers Hskip) as [E1 E2].
now rewrite E1, E2.
Qed.

End LoadLayersFacts.


Lemma loadLayers_idempotent_witness :
  let env := {| dbOpens := true; txCompletes := true |} in
  let store : StorageService.LayersStore :=
    fun _ => Some [sampleStoredImage; sampleStoredGroup] in
  let first := StorageService.loadLayers sampleBrowser env true store in
  StorageService.loadLayers sampleBrowser env false (fst first) = first.
Proof.
intros env store.
apply (loadLayers_idempotent sampleBrowser env eq_refl eq_refl store
         [sampleStoredImage; sampleStoredGroup] false).
- intros s w h. discriminate.
- reflexivity.
Defined.

Lemma saveLayers_loadLayers_round_trip_witness :
  let env := {| dbOpens := true; txCompletes := true |} in
  let store' :=
    fst (StorageService.saveLayers env (fun _ => None) [sampleStoredGroup]) in
  StorageService.loadLayers sampleBrowser env false store'
  = (store', StorageService.Returned (Some [sampleStoredGroup])).
Proof.
intros env.
exact (saveLayers_loadLayers_round_trip sampleBrowser env eq_refl eq_refl
         (fun _ => None) [sampleStoredGroup] false eq_refl).
Defined.

Section LoadLayersFailures.
Variable browser : ThumbnailService.Browser.



End LoadLayersFailures.


(* ================================================================== *)
(** * More on the thumbnail dimensions *)
(* ================================================================== *)

Lemma gt_fin (p q : Q) :
  JS.gt (Fin p) (Fin q) = true <-> q < p.
Proof.
unfold JS.gt. destruct (Qcompare_spec p q) as [E | Hlt | Hgt];
  split; intros H; try discriminate; try reflexivity; try assumption; lra.
Qed.

Lemma gt_fin_false (p q : Q) :
  JS.gt (Fin p) (Fin q) = false <-> p <= q.
Proof.
unfold JS.gt. destruct (Qcompare_spec p q) as [E | Hlt | Hgt];
  split; intros H; try discriminate; try reflexivity; lra.
Qed.

Lemma dimensions_landscape (nw nh : Q) :
  0 < nw -> nh < nw ->
  dimensions (Fin nw) (Fin nh) = (Fin 256, Fin (nh / nw * 256)).
Proof.
intros Hw Hlt. unfold dimensions, THUMBNAIL_SIZE.
rewrite (proj2 (gt_fin nw nh) Hlt). now rewrite div_fin_pos.
Qed.

Lemma dimensions_portrait (nw nh : Q) :
  0 < nh -> nw <= nh ->
  dimensions (Fin nw) (Fin nh) = (Fin (nw / nh * 256), Fin 256).
Proof.
intros Hh Hle. unfold dimensions, THUMBNAIL_SIZE.
rewrite (proj2 (gt_fin_false nw nh) Hle). now rewrite div_fin_pos.
Qed.

(** X19.  The thumbnail dimensions depend on the aspect ratio only:
    scaling the natural width and height by the same positive factor
    does not change them; and exchanging width and height exchanges the
    dimensions. *)
Theorem dimensions_aspect_only (nw nh k : Q) :
  0 < nw -> 0 < nh -> 0 < k ->
  (fst (dimensions (Fin (k * nw)) (Fin (k * nh)))
     =~ fst (dimensions (Fin nw) (Fin nh))
   /\ snd (dimensions (Fin (k * nw)) (Fin (k * nh)))
        =~ snd (dimensions (Fin nw) (Fin nh)))
  /\ (fst (dimensions (Fin nh) (Fin nw)) =~ snd (dimensions (Fin nw) (Fin nh))
      /\ snd (dimensions (Fin nh) (Fin nw))
           =~ fst (dimensions (Fin nw) (Fin nh))).
Proof.
intros Hw Hh Hk.
assert (Hkw : 0 < k * nw) by (now apply Qmult_lt_0_compat).
assert (Hkh : 0 < k * nh) by (now apply Qmult_lt_0_compat).
destruct (Qlt_le_dec nh nw) as [Hlt | Hle].
- rewrite (dimensions_landscape nw nh Hw Hlt).
  rewrite (dimensions_landscape (k * nw) (k * nh) Hkw)
    by (now apply Qmult_lt_l).
  rewrite (dimensions_portrait nh nw Hw) by lra.
  cbn [fst snd eqn]. repeat split; try reflexivity. field. lra.
- rewrite (dimensions_portrait nw nh Hh Hle).
  rewrite (dimensions_portrait (k * nw) (k * nh) Hkh)
    by (now apply Qmult_le_l).
  destruct (Qlt_le_dec nw nh) as [Hlt' | Hle'].
  + rewrite (dimensions_landscape nh nw Hh Hlt').
    cbn [fst snd eqn]. repeat split; try reflexivity. field. lra.
  + rewrite (dimensions_portrait nh nw Hw Hle').
    assert (E : nw == nh) by lra.
    cbn [fst snd eqn]. repeat split; try reflexivity;
      try (field; lra); rewrite E; field; lra.
Qed.

Lemma dimensions_aspect_only_witness :
  fst (dimensions (Fin (2 * 1024)) (Fin (2 * 768)))
    =~ fst (dimensions (Fin 1024) (Fin 768))
  /\ snd (dimensions (Fin (2 * 1024)) (Fin (2 * 768)))
       =~ snd (dimensions (Fin 1024) (Fin 768)).
Proof.
apply (dimensions_aspect_only 1024 768 2); lra.
Defined.

(** X20.  Images without extent.  When exactly one of the natural width
    and height is zero, the thumbnail has size 256 in the other
    direction and 0 in that one; when both are zero, the computed width
    is [NaN] (it is 0/0 times 256) and the height 256. *)
Theorem dimensions_zero_extent :
  (forall nw : Q, 0 < nw ->
     dimensions (Fin nw) (Fin 0) = (Fin 256, Fin (0 / nw * 256)))
  /\ (forall nh : Q, 0 < nh ->
        dimensions (Fin 0) (Fin nh) = (Fin (0 / nh * 256), Fin 256))
  /\ dimensions (Fin 0) (Fin 0) = (NaN, Fin 256).
Proof.
split; [ | split].
- intros nw Hw. now apply dimensions_landscape.
- intros nh Hh. apply dimensions_portrait; lra.
- reflexivity.
Qed.

Lemma dimensions_zero_extent_witness :
  dimensions (Fin 640) (Fin 0) = (Fin 256, Fin (0 / 640 * 256)).
Proof.
apply (proj1 dimensions_zero_extent). lra.
Defined.

(* ================================================================== *)
(** * What is drawn *)
(* ================================================================== *)

Section Drawn.
Variable host : MinimapView.Host.
Variable props : MinimapView.Props.
Variable colors : string -> option string.
Variable st : State.

Lemma renderLayers_keys :
  map RectProps.key (MinimapView.renderLayers host props colors st)
  = map LayerData.id
        (sortedLayers (MinimapView.layers props)
                      (MinimapView.selectedLayerId props)).
Proof.
unfold MinimapView.renderLayers. rewrite map_map. now apply map_ext.
Qed.

(** X21.  One rectangle is drawn for each layer, keyed by the id of the
    layer, in render order: no layer is left out or drawn twice, and
    the keys are distinct when the ids are. *)
Theorem one_rect_per_layer :
  let rects := MinimapView.renderLayers host props colors st in
  map RectProps.key rects
  = map LayerData.id (sortedLayers (MinimapView.layers props)
                                   (MinimapView.selectedLayerId props))
  /\ Permutation (map LayerData.id (MinimapView.layers props))
                 (map RectProps.key rects)
  /\ (NoDup (map LayerData.id (MinimapView.layers props)) ->
      NoDup (map RectProps.key rects)).
Proof.
intros rects. subst rects.
assert (Hp : Permutation (map LayerData.id (MinimapView.layers props))
               (map RectProps.key
                    (MinimapView.renderLayers host props colors st))).
{ rewrite renderLayers_keys. apply Permutation_map, sort_perm. }
split; [apply renderLayers_keys | split; [exact Hp | ]].
intros Hnd. exact (Permutation_NoDup Hp Hnd).
Qed.

End Drawn.

Lemma one_rect_per_layer_witness :
  let host := {| MinimapView.window :=
                   {| innerWidth := Fin 800; innerHeight := Fin 600 |};
                 MinimapView.containerRect := None |} in
  let props := {| MinimapView.layers := [sampleImage; sampleGroup];
                  MinimapView.selectedLayerId := None;
                  MinimapView.canvasOffset := Point.mk (Fin 0) (Fin 0);
                  MinimapView.scale := Fin 1 |} in
  NoDup (map RectProps.key
             (MinimapView.renderLayers host props (fun _ => None)
                                       initialState)).
Proof.
intros host props.
destruct (one_rect_per_layer host props (fun _ => None) initialState)
  as (_ & _ & Hnd).
apply Hnd. cbn. repeat constructor; cbn; intuition discriminate.
Defined.

Section DrawnRect.
Variables W H cox coy scale zoom : Q.
Hypothesis HW : 0 <= W.
Hypothesis HH : 0 <= H.
Hypothesis Hwin : 0 < W \/ 0 < H.
Hypothesis Hscale : 0 < scale.
Hypothesis Hzoom : 0 < zoom.
Variable ls : list LayerData.t.
Hypothesis Hfin : forallb finiteLayer ls = true.
Variable selected : option string.
Variable container : option DOMRect.
Variable colors : string -> option string.

Let host : MinimapView.Host :=
  {| MinimapView.window := {| innerWidth := Fin W; innerHeight := Fin H |};
     MinimapView.containerRect := container |}.
Let props : MinimapView.Props :=
  {| MinimapView.layers := ls;
     MinimapView.selectedLayerId := selected;
     MinimapView.canvasOffset := Point.mk (Fin cox) (Fin coy);
     MinimapView.scale := Fin scale |}.

(** The content bounds of the component, for a window that is not
    empty and a positive scale. *)
Lemma view_bounds :
  exists bx by_ w h : Q,
    MinimapView.bounds host props = rectQ bx by_ w h /\ 0 < w /\ 0 < h.
Proof.
unfold MinimapView.bounds, MinimapView.viewport, host, props.
cbn [MinimapView.window MinimapView.canvasOffset MinimapView.scale
     MinimapView.layers].
rewrite (getViewportInWorld_fin W H scale Hscale).
assert (Hvw : 0 <= W / scale) by (apply Qle_shift_div_l; lra).
assert (Hvh : 0 <= H / scale) by (apply Qle_shift_div_l; lra).
destruct (contentBounds_cover ls (- cox / scale) (- coy / scale)
                              (W / scale) (H / scale) Hfin Hvw Hvh)
  as (bx & by_ & w & h & E & _ & _ & _ & Hpos & _).
exists bx, by_, w, h. split; [exact E | ]. apply Hpos.
destruct Hwin; [left | right]; apply Qlt_shift_div_l; lra.
Qed.

(** X22.  The rectangle drawn for a layer starts at the image of the
    top left corner of the layer, is at least 2 by 2, and covers the
    image of every point of the rectangle of the layer. *)
Theorem drawn_rect_covers_layer (st : State) (l : LayerData.t)
    (px py : Q) :
  minimapZoom st = Fin zoom -> In l ls ->
  contains (layerRect l) (Point.mk (Fin px) (Fin py)) = true ->
  let d := MinimapView.renderLayer host props colors st l in
  let m := worldToMinimap (MinimapView.bounds host props) (Fin zoom)
                          (Fin px) (Fin py) in
  contains (Rect.mk (RectProps.x d) (RectProps.y d)
                    (RectProps.width d) (RectProps.height d))
           (Point.mk (ScaledPoint.x m) (ScaledPoint.y m)) = true
  /\ leb (Fin 2) (RectProps.width d) = true
  /\ leb (Fin 2) (RectProps.height d) = true.
Proof.
intros Hz Hl Hp d m. subst d m.
destruct view_bounds as (bx & by_ & w & h & Eb & Hw & Hh).
assert (Hs : 0 < fitScaleQ w h zoom) by (now apply fitScaleQ_pos).
assert (Hfl : finiteLayer l = true)
  by (rewrite forallb_forall in Hfin; now apply Hfin).
destruct (finiteLayer_inv l Hfl) as (lx & ly & lw & lh & El).
rewrite El in Hp.
apply contains_fin in Hp as (px' & py' & Epp & Hx & Hy).
injection Epp as Ep1 Ep2. subst px' py'.
apply layerRect_fields in El as (Ex & Ey & Ew & Eh).
unfold MinimapView.renderLayer. rewrite Eb, Hz, Ex, Ey, Ew, Eh.
rewrite !(worldToMinimap_fin bx by_ w h zoom _ _ _
            (fitScale_fin bx by_ w h zoom Hw Hh)).
cbn [RectProps.x RectProps.y RectProps.width RectProps.height
     ScaledPoint.x ScaledPoint.y ScaledPoint.scale].
autorewrite with js.
set (s := fitScaleQ w h zoom) in *.
assert (X1 : 0 <= (px - lx) * s) by (apply Qmult_le_0_compat; lra).
assert (X2 : (px - lx) * s <= lw * s) by (apply Qmult_le_compat_r; lra).
assert (Y1 : 0 <= (py - ly) * s) by (apply Qmult_le_0_compat; lra).
assert (Y2 : (py - ly) * s <= lh * s) by (apply Qmult_le_compat_r; lra).
assert (MX1 := Q.le_max_l (lw * s) 2). assert (MX2 := Q.le_max_r (lw * s) 2).
assert (MY1 := Q.le_max_l (lh * s) 2). assert (MY2 := Q.le_max_r (lh * s) 2).
split; [ | split; cbn [leb]; now apply Qle_bool_iff].
match goal with
| |- contains {| Rect.x := Fin ?a; Rect.y := Fin ?b;
                 Rect.width := Fin ?c; Rect.height := Fin ?e |} _ = true =>
    fold (rectQ a b c e)
end.
apply contains_fin. eexists _, _. split; [reflexivity | ].
split; split; lra.
Qed.

End DrawnRect.

Lemma drawn_rect_covers_layer_witness :
  let host := {| MinimapView.window :=
                   {| innerWidth := Fin 800; innerHeight := Fin 600 |};
                 MinimapView.containerRect := None |} in
  let props := {| MinimapView.layers := [sampleImage];
                  MinimapView.selectedLayerId := None;
                  MinimapView.canvasOffset := Point.mk (Fin 0) (Fin 0);
                  MinimapView.scale := Fin 1 |} in
  let d := MinimapView.renderLayer host props (fun _ => None) initialState
                                   sampleImage in
  leb (Fin 2) (RectProps.width d) = true
  /\ leb (Fin 2) (RectProps.height d) = true.
Proof.
intros host props.
destruct (drawn_rect_covers_layer 800 600 0 0 1 1 ltac:(lra) ltac:(lra)
            ltac:(lra) ltac:(lra) ltac:(lra) [sampleImage] eq_refl None None
            (fun _ => None) initialState sampleImage 15 15 eq_refl
            (or_introl eq_refl) eq_refl) as (_ & Hw & Hh).
split; [exact Hw | exact Hh].
Defined.

(* ================================================================== *)
(** * The render order is stable *)
(* ================================================================== *)

(** X23.  With distinct ids, the render order is made of four runs, each
    in the order of the input: the groups that are not selected, the
    selected group, the other layers that are not selected, and the
    selected layer.  Layers of the same kind are never exchanged. *)
Theorem render_order_stable (selectedLayerId : option string)
    (layers : list LayerData.t) :
  NoDup (map LayerData.id layers) ->
  sortedLayers layers selectedLayerId
  = plainGroups selectedLayerId layers
    ++ selectedGroups selectedLayerId layers
    ++ plainLayers selectedLayerId layers
    ++ selectedLayers selectedLayerId layers.
Proof. exact (sortedLayers_classes selectedLayerId layers). Qed.

Lemma render_order_stable_witness :
  sortedLayers [sampleImage; sampleGroup] None
  = plainGroups None [sampleImage; sampleGroup]
    ++ selectedGroups None [sampleImage; sampleGroup]
    ++ plainLayers None [sampleImage; sampleGroup]
    ++ selectedLayers None [sampleImage; sampleGroup].
Proof.
apply (render_order_stable None [sampleImage; sampleGroup]).
cbn. repeat constructor; cbn; intuition discriminate.
Defined.
